(** * RAG API (Milvus + Ollama): ingestion and retrieval orchestration

    A shallow embedding of [src/api/main.py] and the properties of its
    extraction fallback, paragraph chunker, embedding and generation retry
    loops, batch and single-file ingestion, and chat orchestration.

    Python values are modelled as follows.
    - [str] is a list of Unicode code points ([N]); [py] turns a literal
      into one.  [strip], [split] and slicing follow CPython.
    - [int] is [Z]; [Optional[int]] is [option Z]; truthiness is written out.
    - A call that may raise returns a [result]; code that talks to the
      outside world (HTTP backends, the vector store, [time.sleep],
      [uuid.uuid4]) runs in the monad [M], which threads the [trace] of
      events performed so far.  The outside world is an [env] of oracles
      that answer each call from the history of events before it. *)

From Stdlib Require Import String Ascii List ZArith NArith Lia Bool QArith
  DecimalString.
From Equations Require Import Equations.
Import ListNotations.

Local Open Scope Z_scope.

(* ===================================================================== *)
(** ** Python strings *)
(* ===================================================================== *)

Module PyStr.

Definition char := N.
Definition str := list char.

(** A literal, code point by code point. *)
Definition py (s : string) : str :=
  map N_of_ascii (list_ascii_of_string s).

Definition nl : char := 10%N.

(** [len(s)] *)
Definition len (s : str) : Z := Z.of_nat (length s).

(** Truthiness of a string: [if s]. *)
Definition truthy (s : str) : bool :=
  match s with [] => false | _ :: _ => true end.

(** The characters [str.strip()] removes: CPython's
    [_PyUnicode_IsWhitespace]. *)
Definition isspace (c : char) : bool :=
  ((9 <=? c) && (c <=? 13) || (28 <=? c) && (c <=? 32)
   || (c =? 133) || (c =? 160) || (c =? 5760)
   || (8192 <=? c) && (c <=? 8202)
   || (c =? 8232) || (c =? 8233) || (c =? 8239) || (c =? 8287)
   || (c =? 12288))%N.

Fixpoint lstrip (s : str) : str :=
  match s with
  | [] => []
  | c :: s' => if isspace c then lstrip s' else s
  end.

Definition rstrip (s : str) : str := rev (lstrip (rev s)).

(** [s.strip()] *)
Definition strip (s : str) : str := rstrip (lstrip s).

(** [s.split("\n")]: never empty, one more piece than there are newlines. *)
Fixpoint split_nl (s : str) : list str :=
  match s with
  | [] => [[]]
  | c :: s' =>
      if (c =? nl)%N then [] :: split_nl s'
      else match split_nl s' with
           | [] => [[c]]
           | l :: ls => (c :: l) :: ls
           end
  end.

(** [sep.join(parts)] *)
Fixpoint join (sep : str) (parts : list str) : str :=
  match parts with
  | [] => []
  | [p] => p
  | p :: ps => p ++ sep ++ join sep ps
  end.

(** [s[i:]] with CPython's clamping of a negative or too large start. *)
Definition slice_from {A} (s : list A) (i : Z) : list A :=
  let n := Z.of_nat (length s) in
  let start := if i <? 0 then Z.max 0 (i + n) else Z.min i n in
  skipn (Z.to_nat start) s.

(** [s[:j]] with the same clamping of the stop. *)
Definition slice_to {A} (s : list A) (j : Z) : list A :=
  let n := Z.of_nat (length s) in
  let stop := if j <? 0 then Z.max 0 (j + n) else Z.min j n in
  firstn (Z.to_nat stop) s.

End PyStr.
Import PyStr.

(* ===================================================================== *)
(** ** The chunker *)
(* ===================================================================== *)

Module Chunker.

(** [[t.strip() for t in text.split("\n") if t.strip()]] *)
Definition paragraphs (text : str) : list str :=
  map strip (filter (fun t => truthy (strip t)) (split_nl text)).

(** [max_chunks and len(chunks) >= max_chunks] *)
Definition reached (max_chunks : option Z) (chunks : list str) : bool :=
  match max_chunks with
  | None => false
  | Some n => negb (n =? 0) && (n <=? Z.of_nat (length chunks))
  end.

(** [not max_chunks or len(chunks) < max_chunks] *)
Definition below (max_chunks : option Z) (chunks : list str) : bool :=
  match max_chunks with
  | None => true
  | Some n => (n =? 0) || (Z.of_nat (length chunks) <? n)
  end.

(** How the [for] loop of [chunk_text] ends: by the [return] inside it, or
    by running out of paragraphs with the state [(chunks, buf)]. *)
Inductive loop_exit : Type :=
| Returned (chunks : list str)
| Exhausted (chunks : list str) (buf : str).

(** Lines 96-97: the buffer after a flush, [(tail + "\n" + para).strip()]
    with [tail = buf[-overlap:]] if [overlap and len(buf) > overlap], and
    the empty string otherwise. *)
Definition seed (overlap : Z) (buf para : str) : str :=
  let tail := if negb (overlap =? 0) && (overlap <? len buf)
              then slice_from buf (- overlap) else [] in
  strip (tail ++ nl :: para).

Fixpoint chunk_loop (chunk_size overlap : Z) (max_chunks : option Z)
    (paras : list str) (chunks : list str) (buf : str) : loop_exit :=
  match paras with
  | [] => Exhausted chunks buf
  | para :: rest =>
      if len buf + len para + 1 <=? chunk_size then
        chunk_loop chunk_size overlap max_chunks rest chunks
          (strip (buf ++ nl :: para))
      else if truthy buf then
        let chunks' := chunks ++ [buf] in
        if reached max_chunks chunks' then Returned chunks'
        else chunk_loop chunk_size overlap max_chunks rest chunks'
               (seed overlap buf para)
      else
        chunk_loop chunk_size overlap max_chunks rest chunks
          (seed overlap buf para)
  end.

Definition chunk_text (text : str) (chunk_size overlap : Z)
    (max_chunks : option Z) : list str :=
  match chunk_loop chunk_size overlap max_chunks (paragraphs text) [] [] with
  | Returned chunks => chunks
  | Exhausted chunks buf =>
      if truthy buf && below max_chunks chunks then chunks ++ [buf]
      else chunks
  end.

(** The defaults of the signature. *)
Definition default_chunk_size : Z := 1200.
Definition default_overlap : Z := 200.

End Chunker.
Import Chunker.

(* ===================================================================== *)
(** ** Exceptions, results and the outside world *)
(* ===================================================================== *)

Module Runtime.

(** The classes under [requests.exceptions.RequestException] that the two
    retry loops name or meet; [ReadTimeout] is one of them. *)
Inductive request_class : Type :=
| ReadTimeout
| ConnectionError
| HTTPError
| OtherRequestException.

(** The exceptions of the program.  [HTTPException] is FastAPI's and is not
    a [RequestException]. *)
Inductive exn : Type :=
| RequestException (cls : request_class) (msg : str)
| HTTPException (status_code : Z) (detail : str)
| KeyError (key : str)
| ValueError (msg : str)
| OtherError (cls msg : str).

(** [isinstance(e, (ReadTimeout, RequestException))] *)
Definition is_request_exception (e : exn) : bool :=
  match e with
  | RequestException _ _ => true
  | _ => false
  end.

Definition decimal (n : Z) : str :=
  py (NilZero.string_of_int (Z.to_int n)).

(** [str(e)], as an f-string renders [{e}]; an [HTTPException] reads
    [f"{status_code}: {detail}"], a [KeyError] is the [repr] of its key. *)
Definition str_exn (e : exn) : str :=
  match e with
  | RequestException _ msg => msg
  | HTTPException status_code detail =>
      decimal status_code ++ py ": " ++ detail
  | KeyError key => py "'" ++ key ++ py "'"
  | ValueError msg => msg
  | OtherError _ msg => msg
  end.

Inductive result (A : Type) : Type :=
| Ok (a : A)
| Raise (e : exn).
Arguments Ok {A} a.
Arguments Raise {A} e.

Definition float := Q.
Definition vector := list float.

(** A search hit; [hit_text] is [h.entity.get("text")]. *)
Record hit : Type := { hit_text : str; hit_score : float }.

(** What the program does to the outside world, in order. *)
Inductive event : Type :=
| EvEmbeddings (prompt : str)        (* POST {OLLAMA_URL}/api/embeddings *)
| EvChat (prompt : str)              (* POST {OLLAMA_URL}/api/chat *)
| EvSleep (seconds : Z)              (* time.sleep *)
| EvUuid                             (* uuid.uuid4() *)
| EvSearch (qvec : vector) (limit : Z)
| EvInsert (ids : list str) (vectors : list vector) (texts : list str)
| EvFlush.

Definition trace := list event.

(** An HTTP exchange: [requests.post] raises, or returns a response with a
    status code, the text [raise_for_status] would put in its [HTTPError],
    and what [r.json()] gives. *)
Inductive http_reply (J : Type) : Type :=
| NoReply (e : exn)
| Reply (status : Z) (reason : str) (body : result J).
Arguments NoReply {J} e.
Arguments Reply {J} status reason body.

(** The body of an embeddings reply: [None] when the object has no
    ["embedding"] key. *)
Definition embeddings_json := option vector.

(** The body of a chat reply: the value of [message.content] (absent when
    [message] is missing, null or empty, or has no content) and of
    [response] (absent when the key is missing or null). *)
Record chat_json : Type := {
  message_content : option str;
  response : option str
}.

(** The collaborators.  Each oracle sees the events performed before the
    call it answers.  A store operation answers [None] when it succeeds
    and the exception it raises otherwise. *)
Record env : Type := {
  TOP_K : Z;
  embeddings_api : trace -> str -> http_reply embeddings_json;
  chat_api : trace -> str -> http_reply chat_json;
  uuid4 : trace -> str;
  collection_insert :
    trace -> list str -> list vector -> list str -> option exn;
  collection_flush : trace -> option exn;
  collection_search : trace -> vector -> Z -> result (list (list hit))
}.

(** Computations that perform events and may raise. *)
Definition M (A : Type) : Type := trace -> result A * trace.

Definition ret {A} (a : A) : M A := fun tr => (Ok a, tr).

Definition raise {A} (e : exn) : M A := fun tr => (Raise e, tr).

Definition bind {A B} (m : M A) (k : A -> M B) : M B :=
  fun tr =>
    match m tr with
    | (Ok a, tr') => k a tr'
    | (Raise e, tr') => (Raise e, tr')
    end.

(** [try: body / except Exception as e: handler] *)
Definition try_except {A} (body : M A) (handler : exn -> M A) : M A :=
  fun tr =>
    match body tr with
    | (Ok a, tr') => (Ok a, tr')
    | (Raise e, tr') => handler e tr'
    end.

(** A pure call that may raise, run inside [M]. *)
Definition lift {A} (r : result A) : M A := fun tr => (r, tr).

(** Perform one event whose outcome the world decides. *)
Definition perform {A} (ev : event) (outcome : trace -> result A) : M A :=
  fun tr => (outcome tr, tr ++ [ev]).

(** [r.raise_for_status()] *)
Definition raise_for_status (status : Z) (reason : str) : result unit :=
  if (400 <=? status) && (status <? 600)
  then Raise (RequestException HTTPError reason)
  else Ok tt.

End Runtime.
Import Runtime.

Declare Scope py_scope.
Delimit Scope py_scope with py.
Notation "x <- m ;; k" := (bind m (fun x => k))
  (at level 61, m at next level, right associativity) : py_scope.
Notation "m ;;; k" := (bind m (fun _ => k))
  (at level 61, right associativity) : py_scope.

(** Pure code that may raise. *)
Definition rbind {A B} (r : result A) (k : A -> result B) : result B :=
  match r with
  | Ok a => k a
  | Raise e => Raise e
  end.

Fixpoint rmap {A B} (f : A -> result B) (l : list A) : result (list B) :=
  match l with
  | [] => Ok []
  | x :: l' =>
      rbind (f x) (fun y => rbind (rmap f l') (fun ys => Ok (y :: ys)))
  end.

(* ===================================================================== *)
(** ** Reading documents *)
(* ===================================================================== *)

Module Extractor.

(** A path and what the parsers make of the file there:
    [p.read_text(encoding="utf-8", errors="ignore")]; [PdfReader(str(p))]
    and [page.extract_text()] of each of its pages; [fitz.open(str(p))] and
    [page.get_text("text")] of each of its pages. *)
Record document : Type := {
  doc_name : str;                                 (* p.name *)
  doc_suffix : str;                               (* p.suffix.lower() *)
  doc_exists : bool;                              (* p.exists() *)
  doc_text : result str;
  doc_pypdf : result (list (result (option str)));
  doc_fitz : result (list (result str))
}.

(** An [Optional[int]] used as a condition: [None] and [0] are false. *)
Definition if_set (o : option Z) : option Z :=
  match o with
  | Some n => if n =? 0 then None else Some n
  | None => None
  end.

(** [x or ""] *)
Definition or_empty (o : option str) : str :=
  match o with
  | Some s => s
  | None => []
  end.

Definition read_pdf_pypdf (p : document) (max_pages : option Z)
  : result str :=
  rbind (doc_pypdf p) (fun reader_pages =>
    let pages := match if_set max_pages with
                 | Some n => slice_to reader_pages n
                 | None => reader_pages
                 end in
    rbind (rmap (fun page => rbind page (fun t => Ok (or_empty t))) pages)
      (fun texts => Ok (join [nl] texts))).

Definition read_pdf_pymupdf (p : document) (max_pages : option Z)
  : result str :=
  rbind (doc_fitz p) (fun doc =>
    let total := Z.of_nat (length doc) in
    let stop := match if_set max_pages with
                | Some n => Z.min total n
                | None => total
                end in
    rbind (rmap (fun page => page) (firstn (Z.to_nat stop) doc))
      (fun text_parts => Ok (strip (join [nl] text_parts)))).

(** [try: txt = f() / except Exception: pass], [txt] keeping its value. *)
Definition or_keep {A} (r : result A) (kept : A) : A :=
  match r with
  | Ok a => a
  | Raise _ => kept
  end.

Definition read_pdf (p : document) (max_pages : option Z) : result str :=
  let txt := or_keep (read_pdf_pypdf p max_pages) [] in
  let txt :=
    if negb (truthy txt) || (len (strip txt) <? 20) then
      or_keep
        (rbind (read_pdf_pymupdf p max_pages) (fun txt2 =>
           Ok (if truthy txt2 && (len (strip txt) <? len (strip txt2))
               then txt2 else txt)))
        txt
    else txt in
  Ok (if truthy txt then txt else []).

Definition read_txt (p : document) : result str := doc_text p.

Definition str_eqb (a b : str) : bool :=
  if list_eq_dec N.eq_dec a b then true else false.

Definition load_document (p : document) (max_pages : option Z) : result str :=
  let ext := doc_suffix p in
  if str_eqb ext (py ".txt") || str_eqb ext (py ".md") then read_txt p
  else if str_eqb ext (py ".pdf") then read_pdf p max_pages
  else Raise (ValueError (py "Tipo de archivo no soportado: " ++ ext)).

End Extractor.
Import Extractor.

(* ===================================================================== *)
(** ** Embeddings through Ollama, with retries *)
(* ===================================================================== *)

Module Embedding.

Definition inspect {A} (a : A) : {b | a = b} := exist _ a eq_refl.

(** The [try] body of [embed_texts]: the POST, [raise_for_status] and
    [r.json()["embedding"]], answered by the world after [tr]. *)
Definition embeddings_try (E : env) (t : str) (tr : trace) : result vector :=
  match embeddings_api E tr t with
  | NoReply e => Raise e
  | Reply status reason body =>
      rbind (raise_for_status status reason) (fun _ =>
      rbind body (fun data =>
        match data with
        | Some v => Ok v
        | None => Raise (KeyError (py "embedding"))
        end))
  end.

(** The [while True] loop for one text, entered with [attempts] failures
    behind it. *)
Equations embed_one (E : env) (t : str) (attempts : nat) (tr : trace)
  : result vector * trace by wf (3 - attempts)%nat lt :=
  embed_one E t attempts tr
    with perform (EvEmbeddings t) (embeddings_try E t) tr := {
    | (Ok v, tr1) => (Ok v, tr1);
    | (Raise e, tr1) with is_request_exception e := {
      | false => (Raise e, tr1);
      | true with inspect (3 <=? S attempts)%nat := {
        | exist _ true _ =>
            (Raise (HTTPException 503 (py "Embeddings error: " ++ str_exn e)),
             tr1);
        | exist _ false _ =>
            embed_one E t (S attempts)
              (tr1 ++ [EvSleep (2 * Z.of_nat (S attempts))]) } } }.
Next Obligation.
  destruct attempts as [|[|?]]; [lia | lia | discriminate].
Qed.

(** The [for t in texts] loop, [out] holding the vectors so far. *)
Fixpoint embed_each (E : env) (texts : list str) (out : list vector)
  : M (list vector) :=
  match texts with
  | [] => ret out
  | t :: rest =>
      (v <- embed_one E t 0 ;; embed_each E rest (out ++ [v]))%py
  end.

Definition embed_texts (E : env) (texts : list str) : M (list vector) :=
  embed_each E texts [].

End Embedding.
Import Embedding.

(* ===================================================================== *)
(** ** Ingestion endpoints *)
(* ===================================================================== *)

Module Ingest.

Record IngestReport : Type := {
  inserted : Z;
  files : list str
}.

(** [[str(uuid.uuid4())[:8] for _ in parts]] *)
Fixpoint short_ids {A} (E : env) (parts : list A) : M (list str) :=
  match parts with
  | [] => ret []
  | _ :: rest =>
      (u <- perform EvUuid (fun tr => Ok (uuid4 E tr)) ;;
       us <- short_ids E rest ;;
       ret (slice_to u 8 :: us))%py
  end.

Definition insert (E : env) (ids : list str) (vectors : list vector)
    (parts : list str) : M unit :=
  perform (EvInsert ids vectors parts)
    (fun tr => match collection_insert E tr ids vectors parts with
               | None => Ok tt
               | Some e => Raise e
               end).

Definition flush (E : env) : M unit :=
  perform EvFlush
    (fun tr => match collection_flush E tr with
               | None => Ok tt
               | Some e => Raise e
               end).

Definition supported (suffix : str) : bool :=
  str_eqb suffix (py ".pdf") || str_eqb suffix (py ".txt")
  || str_eqb suffix (py ".md").

Definition no_text (name : str) : str := name ++ py " (sin texto)".

Definition error_line (name : str) (e : exn) : str :=
  name ++ py " (ERROR: " ++ str_exn e ++ py ")".

(** One iteration of the batch loops from its [try] on: the state is the
    status list and the running total. *)
Definition ingest_file (E : env) (p : document) (name : str)
    (files : list str) (total : Z) : M (list str * Z) :=
  try_except
    (raw <- lift (load_document p None) ;;
     let parts := chunk_text raw default_chunk_size default_overlap None in
     match parts with
     | [] => ret (files ++ [no_text name], total)
     | _ :: _ =>
         vectors <- embed_texts E parts ;;
         ids <- short_ids E parts ;;
         insert E ids vectors parts ;;;
         ret (files ++ [name], total + Z.of_nat (length ids))
     end)%py
    (fun e => ret (files ++ [error_line name e], total)).

Fixpoint ingest_path_loop (E : env) (docs : list document)
    (files : list str) (total : Z) : M (list str * Z) :=
  match docs with
  | [] => ret (files, total)
  | p :: rest =>
      if negb (supported (doc_suffix p)) then
        ingest_path_loop E rest files total
      else
        (st <- ingest_file E p (doc_name p) files total ;;
         ingest_path_loop E rest (fst st) (snd st))%py
  end.

(** [docs_dir] is what [DOCS_DIR.glob("*")] yields. *)
Definition ingest_path (E : env) (docs_dir : list document) : M IngestReport :=
  (st <- ingest_path_loop E docs_dir [] 0 ;;
   flush E ;;;
   ret {| inserted := snd st; files := fst st |})%py.

(** An uploaded file: its name, and what reading it and writing it to
    [DOCS_DIR / f.filename] gives: the file now at that path, or the
    exception of [f.read()] or [write_bytes]. *)
Record upload : Type := {
  filename : str;
  saved : result document
}.

Fixpoint ingest_files_loop (E : env) (uploads : list upload)
    (saved_names : list str) (total : Z) : M (list str * Z) :=
  match uploads with
  | [] => ret (saved_names, total)
  | f :: rest =>
      (dest <- lift (saved f) ;;
       st <- ingest_file E dest (filename f) saved_names total ;;
       ingest_files_loop E rest (fst st) (snd st))%py
  end.

Definition ingest_files (E : env) (uploads : list upload) : M IngestReport :=
  (st <- ingest_files_loop E uploads [] 0 ;;
   flush E ;;;
   ret {| inserted := snd st; files := fst st |})%py.

Definition ingest_one (E : env) (p : document)
    (max_pages max_chunks : option Z) : M IngestReport :=
  if negb (doc_exists p) then
    raise (HTTPException 404 (py "No existe: " ++ doc_name p))
  else
    try_except
      (raw <- lift (load_document p
                      (if str_eqb (doc_suffix p) (py ".pdf")
                       then max_pages else None)) ;;
       let parts :=
         chunk_text raw default_chunk_size default_overlap max_chunks in
       match parts with
       | [] => ret {| inserted := 0; files := [no_text (doc_name p)] |}
       | _ :: _ =>
           vectors <- embed_texts E parts ;;
           ids <- short_ids E parts ;;
           insert E ids vectors parts ;;;
           flush E ;;;
           ret {| inserted := Z.of_nat (length ids); files := [doc_name p] |}
       end)%py
      (fun e =>
         raise (HTTPException 500
                  (py "Ingest error " ++ doc_name p ++ py ": " ++ str_exn e))).

(** The defaults of [ingest_one]'s query parameters. *)
Definition default_max_pages : option Z := Some 10.
Definition default_max_chunks : option Z := Some 100.

End Ingest.
Import Ingest.

(* ===================================================================== *)
(** ** Chat: retrieval, prompt, generation with retries *)
(* ===================================================================== *)

Module Chat.

Definition blank_line : str := [nl; nl].

(** The prompt of lines 264-268. *)
Definition build_prompt (ctx question : str) : str :=
  py "Usa estrictamente el contexto para responder. "
  ++ py "Si el contexto no contiene la respuesta, indica claramente que no est"
  ++ [225%N] ++ py " en los documentos." ++ [nl; nl]
  ++ py "[Contexto]" ++ [nl] ++ ctx ++ [nl; nl]
  ++ py "[Pregunta]" ++ [nl] ++ question ++ [nl; nl] ++ py "Respuesta:".

(** [(data.get("message", {}) or {}).get("content") or
    data.get("response", "")] *)
Definition extract_answer (data : chat_json) : str :=
  match message_content data with
  | Some (c :: s) => c :: s
  | _ => or_empty (response data)
  end.

Definition no_content : exn :=
  HTTPException 503 (py "Ollama no devolvi" ++ [243%N] ++ py " contenido.").

(** The [try] body of [chat]. *)
Definition chat_try (E : env) (prompt : str) (used : Z) (tr : trace)
  : result (str * Z) :=
  match chat_api E tr prompt with
  | NoReply e => Raise e
  | Reply status reason body =>
      rbind (raise_for_status status reason) (fun _ =>
      rbind body (fun data =>
        let answer := extract_answer data in
        if negb (truthy answer) then Raise no_content
        else Ok (answer, used)))
  end.

(** The [while True] loop of [chat], entered with [attempts] failures
    behind it. *)
Equations chat_generate (E : env) (prompt : str) (used : Z) (attempts : nat)
    (tr : trace) : result (str * Z) * trace by wf (2 - attempts)%nat lt :=
  chat_generate E prompt used attempts tr
    with perform (EvChat prompt) (chat_try E prompt used) tr := {
    | (Ok a, tr1) => (Ok a, tr1);
    | (Raise e, tr1) with is_request_exception e := {
      | false => (Raise e, tr1);
      | true with inspect (2 <=? S attempts)%nat := {
        | exist _ true _ =>
            (Raise (HTTPException 503 (py "Ollama chat error: " ++ str_exn e)),
             tr1);
        | exist _ false _ =>
            chat_generate E prompt used (S attempts)
              (tr1 ++ [EvSleep (4 * Z.of_nat (S attempts))]) } } }.
Next Obligation.
  destruct attempts as [|?]; [lia | discriminate].
Qed.

Definition search (E : env) (qvec : vector) : M (list (list hit)) :=
  perform (EvSearch qvec (TOP_K E))
    (fun tr => collection_search E tr qvec (TOP_K E)).

(** [embed_texts([q.question])[0]] *)
Definition first_vector (vs : list vector) : result vector :=
  match vs with
  | v :: _ => Ok v
  | [] => Raise (OtherError (py "IndexError") (py "list index out of range"))
  end.

(** Lines 258-262: the context and the number of hits used. *)
Definition context_of (hits : list (list hit)) : str * Z :=
  match hits with
  | h0 :: _ =>
      if 0 <? Z.of_nat (length h0)
      then (join blank_line (map hit_text h0), Z.of_nat (length h0))
      else ([], 0)
  | [] => ([], 0)
  end.

(** The answer is the pair [(answer, used_docs)]. *)
Definition chat (E : env) (question : str) : M (str * Z) :=
  (vs <- embed_texts E [question] ;;
   qvec <- lift (first_vector vs) ;;
   hits <- search E qvec ;;
   let ctx := fst (context_of hits) in
   let used := snd (context_of hits) in
   chat_generate E (build_prompt ctx question) used 0)%py.

End Chat.
Import Chat.

(* ===================================================================== *)
(** ** Vocabulary of the properties *)
(* ===================================================================== *)

Module Vocabulary.

(** A string that starts with a character [strip] keeps (or is empty). *)
Definition solid_head (s : str) : Prop :=
  match s with [] => True | c :: _ => isspace c = false end.

(** A string [strip] leaves alone: no white space at either end. *)
Definition trimmed (s : str) : Prop := lstrip s = s /\ rstrip s = s.

(** What [chunk_text] does with the way its loop ended. *)
Definition finish (max_chunks : option Z) (e : loop_exit) : list str :=
  match e with
  | Returned chunks => chunks
  | Exhausted chunks buf =>
      if truthy buf && below max_chunks chunks then chunks ++ [buf]
      else chunks
  end.

(** A chunk within [chunk_size], or a buffer just seeded after a flush:
    a tail of the chunk before it, a newline and one paragraph. *)
Definition sized (cs ov : Z) (all_paras : list str) (c : str) : Prop :=
  len c <= cs \/
  exists tail para,
    In para all_paras /\ c = strip (tail ++ nl :: para) /\
    (0 <= ov -> len tail <= ov).

(** [R] holds between every element and the next. *)
Fixpoint chain {A} (R : A -> A -> Prop) (l : list A) : Prop :=
  match l with
  | a :: t => match t with b :: _ => R a b | [] => True end /\ chain R t
  | [] => True
  end.

(** When [a] is longer than [overlap], [b] starts with [a[-overlap:]]
    less its leading white space, a newline and a paragraph. *)
Definition overlaps (ov : Z) (all_paras : list str) (a b : str) : Prop :=
  ov < len a ->
  exists para rest,
    In para all_paras /\
    b = lstrip (slice_from a (- ov)) ++ nl :: para ++ rest.

(** The text [read_pdf] holds after its first [try]: the primary
    extractor's, or the empty string when it raised. *)
Definition primary_text (p : document) (max_pages : option Z) : str :=
  or_keep (read_pdf_pypdf p max_pages) [].

(** A failed attempt that the loops retry: the [try] body raised an
    exception caught by [except (ReadTimeout, RequestException)]. *)
Definition retried {A} (r : result A) (e : exn) : Prop :=
  r = Raise e /\ is_request_exception e = true.

(** The failures the specification has retried: a timeout or a failure of
    the network, as opposed to an answer of the backend. *)
Definition timeout_or_network (e : exn) : bool :=
  match e with
  | RequestException ReadTimeout _ => true
  | RequestException ConnectionError _ => true
  | _ => false
  end.

(** The first half of [chat] went through: the question was embedded as
    [qvec], leaving the trace [tr1], and the search then answered [hits]. *)
Definition retrieved (E : env) (q : str) (tr : trace) (qvec : vector)
    (tr1 : trace) (hits : list (list hit)) : Prop :=
  embed_one E q 0 tr = (Ok qvec, tr1) /\
  collection_search E tr1 qvec (TOP_K E) = Ok hits.

Definition is_flush (ev : event) : bool :=
  match ev with
  | EvFlush => true
  | _ => false
  end.

(** Events none of which is a flush. *)
Definition no_flush (evs : trace) : Prop :=
  Forall (fun ev => is_flush ev = false) evs.

(** A computation that only adds events to the trace, none a flush. *)
Definition quiet {A} (m : M A) : Prop :=
  forall tr, exists evs, snd (m tr) = tr ++ evs /\ no_flush evs.

(** What became of one file. *)
Inductive file_status : Type :=
| Inserted (n : Z)
| NoText
| Failed (e : exn).

(** The line of the report for a file: the bare name, the name with the
    no-text marker, or the name annotated with the error. *)
Definition status_line (name : str) (st : file_status) : str :=
  match st with
  | Inserted _ => name
  | NoText => name ++ py " (sin texto)"
  | Failed e => name ++ py " (ERROR: " ++ str_exn e ++ py ")"
  end.

Definition status_count (st : file_status) : Z :=
  match st with
  | Inserted n => n
  | _ => 0
  end.

(** What became of the file [p], reached by a batch run that had performed
    [tr], and the events the file cost.  Each stage of the pipeline that
    can raise has its rule, and the error it raised is the one recorded:
    - the extraction raised [e]: [Failed e], no event;
    - the text gave no chunk: [NoText], no event;
    - [embed_texts] raised [e] on the chunks (its [HTTPException(503)]
      after three failed attempts, or an error it does not retry):
      [Failed e], after the events of [embed_texts];
    - the vectors and the ids were made and the insert raised [e]:
      [Failed e], after the events of the three steps;
    - the insert was accepted: [Inserted] with the number of chunks. *)
Inductive explains (E : env) (tr : trace) (p : document)
  : file_status -> trace -> Prop :=
| extraction_raised e :
    load_document p None = Raise e ->
    explains E tr p (Failed e) []
| nothing_to_insert raw :
    load_document p None = Ok raw ->
    chunk_text raw default_chunk_size default_overlap None = [] ->
    explains E tr p NoText []
| embedding_raised raw e evs :
    load_document p None = Ok raw ->
    chunk_text raw default_chunk_size default_overlap None <> [] ->
    embed_texts E (chunk_text raw default_chunk_size default_overlap None) tr
      = (Raise e, tr ++ evs) ->
    explains E tr p (Failed e) evs
| insert_raised raw vectors ids e evs us :
    load_document p None = Ok raw ->
    chunk_text raw default_chunk_size default_overlap None <> [] ->
    embed_texts E (chunk_text raw default_chunk_size default_overlap None) tr
      = (Ok vectors, tr ++ evs) ->
    short_ids E (chunk_text raw default_chunk_size default_overlap None)
      (tr ++ evs) = (Ok ids, (tr ++ evs) ++ us) ->
    collection_insert E ((tr ++ evs) ++ us) ids vectors
      (chunk_text raw default_chunk_size default_overlap None) = Some e ->
    explains E tr p (Failed e)
      (evs ++ us ++
       [EvInsert ids vectors
          (chunk_text raw default_chunk_size default_overlap None)])
| chunks_inserted raw vectors ids evs us :
    load_document p None = Ok raw ->
    chunk_text raw default_chunk_size default_overlap None <> [] ->
    embed_texts E (chunk_text raw default_chunk_size default_overlap None) tr
      = (Ok vectors, tr ++ evs) ->
    short_ids E (chunk_text raw default_chunk_size default_overlap None)
      (tr ++ evs) = (Ok ids, (tr ++ evs) ++ us) ->
    collection_insert E ((tr ++ evs) ++ us) ids vectors
      (chunk_text raw default_chunk_size default_overlap None) = None ->
    explains E tr p
      (Inserted
         (Z.of_nat
            (length (chunk_text raw default_chunk_size default_overlap None))))
      (evs ++ us ++
       [EvInsert ids vectors
          (chunk_text raw default_chunk_size default_overlap None)]).

(** The files of a batch, one after the other: each file is reached with
    the events of the files before it behind it, whatever became of
    them. *)
Inductive explains_all (E : env)
  : trace -> list document -> list file_status -> trace -> Prop :=
| no_file_left tr : explains_all E tr [] [] []
| next_file tr p docs st sts evs1 evs2 :
    explains E tr p st evs1 ->
    explains_all E (tr ++ evs1) docs sts evs2 ->
    explains_all E tr (p :: docs) (st :: sts) (evs1 ++ evs2).

Definition status_lines (names : list str) (sts : list file_status)
  : list str :=
  map (fun ns => status_line (fst ns) (snd ns)) (combine names sts).

Definition counted (sts : list file_status) : Z :=
  fold_right Z.add 0 (map status_count sts).

Definition report_of (names : list str) (sts : list file_status)
  : IngestReport :=
  {| inserted := counted sts; files := status_lines names sts |}.

(** The end of both batch endpoints: one flush, then the report. *)
Definition flushed_report (E : env) (tr : trace) (report : IngestReport)
  : result IngestReport * trace :=
  (match collection_flush E tr with
   | None => Ok report
   | Some e => Raise e
   end,
   tr ++ [EvFlush]).

End Vocabulary.
Import Vocabulary.

(* ===================================================================== *)
(** ** Scenarios *)
(* ===================================================================== *)

Module Scenario.

Definition overflow_text : str := py "aaaaaaaa" ++ nl :: py "bbbbbbbb".

Definition trimmed_tail_text : str := py "ab cd" ++ nl :: py "xyz".

(** A scanned PDF: the primary extractor finds 5 characters, the secondary
    one 50. *)
Definition scanned_pdf : document :=
  {| doc_name := py "scan.pdf";
     doc_suffix := py ".pdf";
     doc_exists := true;
     doc_text := Ok [];
     doc_pypdf := Ok [Ok (Some (py " abc ")); Ok None];
     doc_fitz := Ok [Ok (py "0123456789012345678901234");
                     Ok (py "012345678901234567890123")] |}.

Definition count_embeddings (tr : trace) : nat :=
  length (filter (fun ev => match ev with
                            | EvEmbeddings _ => true
                            | _ => false
                            end) tr).

Definition count_chats (tr : trace) : nat :=
  length (filter (fun ev => match ev with
                            | EvChat _ => true
                            | _ => false
                            end) tr).

Definition timed_out : exn :=
  RequestException ReadTimeout (py "Read timed out.").

Definition refused : exn :=
  RequestException ConnectionError (py "Connection refused").

(** A stand-in embedding: the length of the text. *)
Definition vec (t : str) : vector := [inject_Z (len t)].

(** A world scripted by the number of calls already made to each backend;
    its store never fails and always finds [hits]. *)
Definition world (embed_reply : nat -> str -> http_reply embeddings_json)
    (chat_reply : nat -> http_reply chat_json) (hits : list (list hit))
  : env :=
  {| TOP_K := 4;
     embeddings_api := fun tr t => embed_reply (count_embeddings tr) t;
     chat_api := fun tr _ => chat_reply (count_chats tr);
     uuid4 := fun tr =>
       py "0000000" ++ decimal (Z.of_nat (length tr))
       ++ py "-0000-4000-8000-000000000000";
     collection_insert := fun _ _ _ _ => None;
     collection_flush := fun _ => None;
     collection_search := fun _ _ _ => Ok hits |}.

(** An embedding backend that times out [fails] times, then answers. *)
Definition flaky_embeddings (fails : nat) (n : nat) (t : str)
  : http_reply embeddings_json :=
  if (n <? fails)%nat then NoReply timed_out
  else Reply 200 (py "OK") (Ok (Some (vec t))).

(** An embedding backend whose replies lack the ["embedding"] field. *)
Definition keyless_embeddings (n : nat) (t : str)
  : http_reply embeddings_json :=
  Reply 200 (py "OK") (Ok None).

(** An embedding backend that answers every call with status 500. *)
Definition server_error : exn :=
  RequestException HTTPError (py "500 Server Error: Internal Server Error").

Definition failing_embeddings (n : nat) (t : str)
  : http_reply embeddings_json :=
  Reply 500 (py "500 Server Error: Internal Server Error") (Ok None).

(** A generation backend that refuses [fails] connections, then answers
    with [data]. *)
Definition flaky_chat (fails : nat) (data : chat_json) (n : nat)
  : http_reply chat_json :=
  if (n <? fails)%nat then NoReply refused
  else Reply 200 (py "OK") (Ok data).

Definition says (answer : str) : chat_json :=
  {| message_content := Some answer; response := None |}.

Definition capitals : list (list hit) :=
  [[ {| hit_text := py "Paris is the capital of France.";
        hit_score := 9 # 10 |};
     {| hit_text := py "Berlin is the capital of Germany.";
        hit_score := 7 # 10 |} ]].

Definition question : str := py "What is the capital of France?".

Definition not_a_pdf : exn :=
  OtherError (py "PdfReadError") (py "EOF marker not found").

Definition denied : exn :=
  OtherError (py "PermissionError") (py "[Errno 13] Permission denied").

Definition file_with (name suffix : str) (text : result str) : document :=
  {| doc_name := name;
     doc_suffix := suffix;
     doc_exists := true;
     doc_text := text;
     doc_pypdf := Raise not_a_pdf;
     doc_fitz := Raise not_a_pdf |}.

Definition uploaded (d : document) : upload :=
  {| filename := doc_name d; saved := Ok d |}.

Definition first_file : document :=
  file_with (py "a.txt") (py ".txt") (Ok (py "uno" ++ nl :: py "dos")).

Definition second_file : document :=
  file_with (py "b.txt") (py ".txt") (Raise denied).

Definition third_file : document :=
  file_with (py "c.md") (py ".md") (Ok (py "cuatro")).

Definition blank_file : document :=
  file_with (py "blank.txt") (py ".txt") (Ok (py "   " ++ nl :: py " ")).


Definition fifth_file : document :=
  file_with (py "e.md") (py ".md") (Ok (py "cinco" ++ nl :: nl :: py "seis")).

Definition store_down : exn :=
  OtherError (py "MilvusException") (py "collection not loaded").

(** A world whose embedding backend times out on the text ["tres"] and
    answers every other call, and whose store refuses a batch with the
    text ["cuatro"]. *)
Definition picky_world : env :=
  {| TOP_K := 4;
     embeddings_api := fun _ t =>
       if str_eqb t (py "tres") then NoReply timed_out
       else Reply 200 (py "OK") (Ok (Some (vec t)));
     chat_api := fun _ _ => NoReply refused;
     uuid4 := fun tr =>
       py "0000000" ++ decimal (Z.of_nat (length tr))
       ++ py "-0000-4000-8000-000000000000";
     collection_insert := fun _ _ _ texts =>
       if existsb (str_eqb (py "cuatro")) texts then Some store_down
       else None;
     collection_flush := fun _ => None;
     collection_search := fun _ _ _ => Ok [] |}.

(** An upload that cannot be written to the documents directory. *)
Definition unsaved (name : str) : upload :=
  {| filename := name; saved := Raise denied |}.

End Scenario.
Import Scenario.

(* ===================================================================== *)
(** ** Further vocabulary *)
(* ===================================================================== *)

Module Measures.

(** [p] occurs in [c] as a run of consecutive characters. *)
Definition infix (p c : str) : Prop := exists a b, c = a ++ p ++ b.

(** A string without a line break. *)
Definition one_line (s : str) : Prop := ~ In nl s.

(** What a chunk always is: not empty, no white space at either end. *)
Definition proper (c : str) : Prop := c <> [] /\ trimmed c.

(** The chunk still in the buffer, counted. *)
Definition pending (buf : str) : nat := if truthy buf then 1 else 0.

(** The same path with other pages behind it. *)
Definition with_pypdf (p : document) (pages : list (result (option str)))
  : document :=
  {| doc_name := doc_name p;
     doc_suffix := doc_suffix p;
     doc_exists := doc_exists p;
     doc_text := doc_text p;
     doc_pypdf := Ok pages;
     doc_fitz := doc_fitz p |}.

Definition with_fitz (p : document) (pages : list (result str)) : document :=
  {| doc_name := doc_name p;
     doc_suffix := doc_suffix p;
     doc_exists := doc_exists p;
     doc_text := doc_text p;
     doc_pypdf := doc_pypdf p;
     doc_fitz := Ok pages |}.

(** The events one text can cost [embed_texts]: one call, or up to two
    more, each after its backoff. *)
Definition embed_shapes (t : str) : list trace :=
  [[EvEmbeddings t];
   [EvEmbeddings t; EvSleep 2; EvEmbeddings t];
   [EvEmbeddings t; EvSleep 2; EvEmbeddings t; EvSleep 4; EvEmbeddings t]].

(** The events the generation loop of [chat] can perform. *)
Definition chat_shapes (prompt : str) : list trace :=
  [[EvChat prompt]; [EvChat prompt; EvSleep 4; EvChat prompt]].

(** Seconds spent in [time.sleep]. *)
Definition slept (evs : trace) : Z :=
  fold_right (fun ev acc => match ev with
                            | EvSleep s => s + acc
                            | _ => acc
                            end) 0 evs.

Definition count_searches (tr : trace) : nat :=
  length (filter (fun ev => match ev with
                            | EvSearch _ _ => true
                            | _ => false
                            end) tr).

(** Events that leave the collection as it is. *)
Definition read_only (ev : event) : Prop :=
  match ev with
  | EvInsert _ _ _ => False
  | EvFlush => False
  | _ => True
  end.

(** How [embed_texts] fails on the text [t]: with its own
    [HTTPException(503)] around a retried error, or with an error of the
    call that is not a [RequestException]. *)
Definition embed_failure (E : env) (t : str) (e : exn) : Prop :=
  (exists e0 tr0,
     retried (embeddings_try E t tr0) e0 /\
     e = HTTPException 503 (py "Embeddings error: " ++ str_exn e0)) \/
  (is_request_exception e = false /\
   exists tr0, embeddings_try E t tr0 = Raise e).

(** [m] only adds events, all of them [G]; what it returns is [Q]. *)
Definition emits (G : event -> Prop) {A} (m : M A) (Q : A -> Prop) : Prop :=
  forall tr,
    exists evs,
      snd (m tr) = tr ++ evs /\ Forall G evs /\
      match fst (m tr) with
      | Ok a => Q a
      | Raise _ => True
      end.

(** A well-formed insert: three columns of one length, at least one row,
    ids of at most 8 characters, every text a proper chunk. *)
Definition tidy (ev : event) : Prop :=
  match ev with
  | EvInsert ids vectors texts =>
      length ids = length texts /\ length vectors = length texts /\
      texts <> [] /\
      Forall (fun i => (length i <= 8)%nat) ids /\ Forall proper texts
  | _ => True
  end.

(** The events of answering the question [q]: embedding it, sleeping,
    searching, generating. *)
Definition query_event (q : str) (ev : event) : Prop :=
  match ev with
  | EvEmbeddings t => t = q
  | EvSleep s => s = 2 \/ s = 4
  | EvSearch _ _ => True
  | EvChat _ => True
  | _ => False
  end.

(** Backends that answer: every embedding call returns a vector at once
    and every insert is accepted. *)
Definition healthy (E : env) : Prop :=
  (forall t tr, exists v, embeddings_try E t tr = Ok v) /\
  (forall tr ids vectors texts,
     collection_insert E tr ids vectors texts = None).

(** The status of a file when nothing but the file itself can fail. *)
Definition plain_status (p : document) : file_status :=
  match load_document p None with
  | Raise e => Failed e
  | Ok raw =>
      match chunk_text raw default_chunk_size default_overlap None with
      | [] => NoText
      | c :: parts' => Inserted (Z.of_nat (length (c :: parts')))
      end
  end.

(** The error [ingest_one] raises around an error of its pipeline. *)
Definition wrapped (p : document) (e0 : exn) : exn :=
  HTTPException 500
    (py "Ingest error " ++ doc_name p ++ py ": " ++ str_exn e0).

End Measures.
Import Measures.

(* ===================================================================== *)
(** ** Further scenarios *)
(* ===================================================================== *)

Module MoreScenarios.

(** A file whose second page cannot be read. *)
Definition torn_pdf : document :=
  {| doc_name := py "torn.pdf";
     doc_suffix := py ".pdf";
     doc_exists := true;
     doc_text := Ok [];
     doc_pypdf := Ok [Ok (Some (py "uno")); Raise not_a_pdf];
     doc_fitz := Ok [Ok (py "uno"); Raise not_a_pdf] |}.

(** A world whose collection cannot be searched. *)
Definition unreachable_store : env :=
  {| TOP_K := 4;
     embeddings_api := fun tr t => flaky_embeddings 0 (count_embeddings tr) t;
     chat_api := fun tr _ => flaky_chat 0 (says (py "Paris")) (count_chats tr);
     uuid4 := fun _ => py "00000000-0000-4000-8000-000000000000";
     collection_insert := fun _ _ _ _ => None;
     collection_flush := fun _ => None;
     collection_search := fun _ _ _ => Raise refused |}.

End MoreScenarios.
Import MoreScenarios.

(* ===================================================================== *)
(** ** Facts about [strip] *)
(* ===================================================================== *)

Module StripFacts.

Lemma lstrip_decompose (s : str) :
  exists w, s = w ++ lstrip s /\ Forall (fun c => isspace c = true) w.
Proof.
  induction s as [|c s IH]; simpl.
  - exists []. split; [reflexivity | constructor].
  - destruct (isspace c) eqn:Hc.
    + destruct IH as (w & Hw & Hall).
      exists (c :: w). split; [simpl; congruence | constructor; assumption].
    + exists []. split; [reflexivity | constructor].
Qed.

Lemma lstrip_length (s : str) : (length (lstrip s) <= length s)%nat.
Proof.
  destruct (lstrip_decompose s) as (w & Hw & _).
  rewrite Hw at 2. rewrite length_app. lia.
Qed.

Lemma rstrip_length (s : str) : (length (rstrip s) <= length s)%nat.
Proof.
  unfold rstrip. rewrite length_rev.
  etransitivity; [apply lstrip_length | rewrite length_rev; lia].
Qed.

Lemma strip_length (s : str) : len (strip s) <= len s.
Proof.
  unfold len, strip.
  pose proof (rstrip_length (lstrip s)). pose proof (lstrip_length s). lia.
Qed.

Lemma lstrip_solid_head (s : str) : solid_head (lstrip s).
Proof.
  induction s as [|c s IH]; simpl; [exact I|].
  destruct (isspace c) eqn:Hc; [assumption | simpl; assumption].
Qed.

Lemma lstrip_id (s : str) : solid_head s -> lstrip s = s.
Proof.
  destruct s as [|c s]; simpl; [reflexivity|]. intros ->. reflexivity.
Qed.

Lemma lstrip_app_some (a b : str) :
  lstrip a <> [] -> lstrip (a ++ b) = lstrip a ++ b.
Proof.
  induction a as [|c a IH]; simpl; [congruence|].
  destruct (isspace c); [assumption | reflexivity].
Qed.

Lemma lstrip_app_none (a b : str) :
  lstrip a = [] -> lstrip (a ++ b) = lstrip b.
Proof.
  induction a as [|c a IH]; simpl; [reflexivity|].
  destruct (isspace c); [assumption | discriminate].
Qed.

Lemma rstrip_app_some (a b : str) :
  rstrip b <> [] -> rstrip (a ++ b) = a ++ rstrip b.
Proof.
  unfold rstrip. intros H. rewrite rev_app_distr, lstrip_app_some.
  - rewrite rev_app_distr, rev_involutive. reflexivity.
  - intros E. apply H. rewrite E. reflexivity.
Qed.

Lemma rstrip_decompose (s : str) : exists w, s = rstrip s ++ w.
Proof.
  destruct (lstrip_decompose (rev s)) as (w & Hw & _).
  exists (rev w). unfold rstrip.
  rewrite <- rev_app_distr, <- Hw, rev_involutive. reflexivity.
Qed.

Lemma lstrip_idem (s : str) : lstrip (lstrip s) = lstrip s.
Proof. apply lstrip_id, lstrip_solid_head. Qed.

Lemma rstrip_idem (s : str) : rstrip (rstrip s) = rstrip s.
Proof. unfold rstrip. rewrite rev_involutive, lstrip_idem. reflexivity. Qed.

Lemma strip_trimmed (s : str) : trimmed (strip s).
Proof.
  unfold trimmed, strip. split; [|apply rstrip_idem].
  apply lstrip_id.
  pose proof (lstrip_solid_head s) as Hh.
  destruct (rstrip_decompose (lstrip s)) as (w & Hw).
  destruct (rstrip (lstrip s)) as [|c r]; [exact I|].
  rewrite Hw in Hh. exact Hh.
Qed.

Lemma trimmed_strip (s : str) : trimmed s -> strip s = s.
Proof. unfold strip. intros [-> ->]. reflexivity. Qed.

(** [strip] is idempotent. *)
Lemma strip_idem (s : str) : strip (strip s) = strip s.
Proof. apply trimmed_strip, strip_trimmed. Qed.

Lemma trimmed_rstrip_cons (para : str) :
  trimmed para -> para <> [] -> rstrip (nl :: para) = nl :: para.
Proof.
  intros [_ Hr] Hne.
  change (nl :: para) with ([nl] ++ para).
  rewrite rstrip_app_some; rewrite Hr; [reflexivity | assumption].
Qed.

(** The first append into an empty buffer: [("" + "\n" + para).strip()]. *)
Lemma strip_nl_para (para : str) : trimmed para -> strip (nl :: para) = para.
Proof.
  intros H. unfold strip. change (lstrip (nl :: para)) with (lstrip para).
  destruct H as [-> ->]. reflexivity.
Qed.

(** Appending a paragraph to a non-empty buffer: nothing is trimmed. *)
Lemma strip_buf_para (buf para : str) :
  trimmed buf -> buf <> [] -> trimmed para -> para <> [] ->
  strip (buf ++ nl :: para) = buf ++ nl :: para.
Proof.
  intros [Hl _] Hb Hp Hpne. unfold strip.
  rewrite lstrip_app_some by (rewrite Hl; assumption).
  rewrite Hl, rstrip_app_some; rewrite trimmed_rstrip_cons by assumption;
    [reflexivity | discriminate].
Qed.

(** Seeding with a tail that holds a kept character: only the white space
    in front of the tail goes. *)
Lemma strip_tail_para (tail para : str) :
  lstrip tail <> [] -> trimmed para -> para <> [] ->
  strip (tail ++ nl :: para) = lstrip tail ++ nl :: para.
Proof.
  intros Ht Hp Hpne. unfold strip.
  rewrite lstrip_app_some by assumption.
  rewrite rstrip_app_some; rewrite trimmed_rstrip_cons by assumption;
    [reflexivity | discriminate].
Qed.

(** A non-empty suffix of a non-empty trimmed string holds a kept
    character: its last one. *)
Lemma lstrip_suffix_some (pre tail : str) :
  rstrip (pre ++ tail) = pre ++ tail -> tail <> [] -> lstrip tail <> [].
Proof.
  intros Hr Hne Hl.
  destruct (lstrip_decompose tail) as (w & Hw & Hall).
  rewrite Hl, app_nil_r in Hw. subst w.
  destruct (rev tail) as [|c t] eqn:Hrev.
  - apply Hne. rewrite <- (rev_involutive tail), Hrev. reflexivity.
  - assert (Hc : isspace c = true).
    { rewrite Forall_forall in Hall. apply Hall.
      apply in_rev. rewrite Hrev. left. reflexivity. }
    unfold rstrip in Hr. rewrite rev_app_distr, Hrev in Hr. simpl in Hr.
    rewrite Hc in Hr.
    apply (f_equal (@length _)) in Hr.
    rewrite length_rev in Hr.
    pose proof (lstrip_length (t ++ rev pre)) as Hlen.
    rewrite length_app in Hr, Hlen. rewrite length_rev in Hlen.
    assert (length tail = S (length t)).
    { rewrite <- (length_rev tail), Hrev. reflexivity. }
    lia.
Qed.

Lemma paragraphs_trimmed (text para : str) :
  In para (paragraphs text) -> trimmed para /\ para <> [].
Proof.
  unfold paragraphs. rewrite in_map_iff.
  intros (t & <- & Hin). apply filter_In in Hin. destruct Hin as [_ Ht].
  split; [apply strip_trimmed|]. intros E. rewrite E in Ht. discriminate.
Qed.

End StripFacts.
Import StripFacts.

(* ===================================================================== *)
(** ** Properties of the chunker *)
(* ===================================================================== *)

Module ChunkerProps.

Lemma chunk_text_finish text cs ov mc :
  chunk_text text cs ov mc =
  finish mc (chunk_loop cs ov mc (paragraphs text) [] []).
Proof. reflexivity. Qed.

Lemma truthy_true (s : str) : truthy s = true -> s <> [].
Proof. destruct s; [discriminate | discriminate]. Qed.

Lemma truthy_false (s : str) : truthy s = false -> s = [].
Proof. destruct s; [reflexivity | discriminate]. Qed.

Lemma slice_from_tail {A} (s : list A) (ov : Z) :
  0 < ov -> ov < Z.of_nat (length s) ->
  slice_from s (- ov) = skipn (length s - Z.to_nat ov) s /\
  Z.of_nat (length (slice_from s (- ov))) = ov.
Proof.
  intros H0 H1. unfold slice_from.
  destruct (Z.ltb_spec (- ov) 0) as [_|]; [|lia].
  replace (Z.to_nat (Z.max 0 (- ov + Z.of_nat (length s))))
    with (length s - Z.to_nat ov)%nat by lia.
  split; [reflexivity | rewrite length_skipn; lia].
Qed.

(** *** Without a ceiling the loop only ever appends *)

Lemma chunk_loop_unbounded_extends cs ov paras :
  forall chunks buf,
    exists more,
      finish None (chunk_loop cs ov None paras chunks buf) = chunks ++ more.
Proof.
  induction paras as [|para rest IH]; intros chunks buf; simpl.
  - destruct (truthy buf); simpl; eexists;
      [reflexivity | rewrite app_nil_r; reflexivity].
  - destruct (len buf + len para + 1 <=? cs); [apply IH|].
    destruct (truthy buf); [|apply IH].
    destruct (IH (chunks ++ [buf]) (seed ov buf para)) as (more & ->).
    exists (buf :: more). rewrite <- app_assoc. reflexivity.
Qed.

(** *** A ceiling [n >= 1] cuts the unbounded result after [n] chunks *)

Lemma chunk_loop_ceiling cs ov (n : Z) paras :
  1 <= n ->
  forall chunks buf,
    Z.of_nat (length chunks) < n ->
    finish (Some n) (chunk_loop cs ov (Some n) paras chunks buf) =
    firstn (Z.to_nat n)
      (finish None (chunk_loop cs ov None paras chunks buf)).
Proof.
  intros Hn. induction paras as [|para rest IH]; intros chunks buf Hlen.
  - simpl. destruct (Z.eqb_spec n 0) as [|_]; [lia|].
    destruct (Z.ltb_spec (Z.of_nat (length chunks)) n) as [_|]; [|lia].
    simpl. destruct (truthy buf); simpl;
      rewrite firstn_all2; try reflexivity;
      rewrite ?length_app; simpl; lia.
  - simpl. destruct (len buf + len para + 1 <=? cs); [apply IH; assumption|].
    destruct (truthy buf); [|apply IH; assumption].
    destruct (Z.eqb_spec n 0) as [|_]; [lia|]. simpl.
    destruct (Z.leb_spec n (Z.of_nat (length (chunks ++ [buf])))) as [Hge|Hlt].
    + simpl.
      destruct (chunk_loop_unbounded_extends cs ov rest (chunks ++ [buf])
                  (seed ov buf para)) as (more & ->).
      rewrite length_app in Hge. simpl in Hge.
      rewrite firstn_app.
      replace (Z.to_nat n - length (chunks ++ [buf]))%nat with 0%nat
        by (rewrite length_app; simpl; lia).
      rewrite firstn_all2 by (rewrite length_app; simpl; lia).
      simpl. rewrite app_nil_r. reflexivity.
    + apply IH. assumption.
Qed.

(** *** A ceiling of zero is no ceiling *)

Lemma chunk_loop_zero cs ov paras :
  forall chunks buf,
    chunk_loop cs ov (Some 0) paras chunks buf =
    chunk_loop cs ov None paras chunks buf.
Proof.
  induction paras as [|para rest IH]; intros chunks buf; simpl;
    [reflexivity|].
  rewrite !IH. reflexivity.
Qed.

(** *** Length of the chunks *)

Section Lengths.
Variables (cs ov : Z) (mc : option Z) (all_paras : list str).

Lemma seed_sized buf para :
  In para all_paras -> sized cs ov all_paras (seed ov buf para).
Proof.
  intros Hin. right. unfold seed.
  eexists _, para. split; [assumption|]. split; [reflexivity|].
  intros Hov.
  destruct (negb (ov =? 0) && (ov <? len buf)) eqn:Hc;
    [|unfold len; simpl; lia].
  apply andb_true_iff in Hc. destruct Hc as [Hnz Hlt].
  apply negb_true_iff, Z.eqb_neq in Hnz. apply Z.ltb_lt in Hlt.
  unfold len in *.
  destruct (slice_from_tail buf ov) as [_ ->]; lia.
Qed.

Lemma chunk_loop_sized paras :
  incl paras all_paras ->
  forall chunks buf,
    Forall (sized cs ov all_paras) chunks ->
    (buf = [] \/ sized cs ov all_paras buf) ->
    match chunk_loop cs ov mc paras chunks buf with
    | Returned c => Forall (sized cs ov all_paras) c
    | Exhausted c b =>
        Forall (sized cs ov all_paras) c /\
        (b = [] \/ sized cs ov all_paras b)
    end.
Proof.
  induction paras as [|para rest IH]; intros Hincl chunks buf Hch Hbuf.
  - simpl. split; assumption.
  - assert (Hp : In para all_paras) by (apply Hincl; left; reflexivity).
    assert (Hrest : incl rest all_paras)
      by (intros x Hx; apply Hincl; right; assumption).
    simpl. destruct (Z.leb_spec (len buf + len para + 1) cs) as [Hfit|Hno].
    + apply IH; [assumption | assumption |].
      right. left.
      pose proof (strip_length (buf ++ nl :: para)) as Hs.
      unfold len in *. rewrite length_app in Hs. simpl in Hs. lia.
    + destruct (truthy buf) eqn:Hb.
      * assert (Hch' : Forall (sized cs ov all_paras) (chunks ++ [buf])).
        { apply Forall_app. split; [assumption|].
          constructor; [|constructor].
          destruct Hbuf as [->|]; [discriminate | assumption]. }
        destruct (reached _ _); [exact Hch'|].
        apply IH; [assumption | exact Hch' |].
        right. apply seed_sized. assumption.
      * apply IH; [assumption | assumption |].
        right. apply seed_sized. assumption.
Qed.
End Lengths.

(** *** Overlap between consecutive chunks *)

Lemma chain_nth {A} (R : A -> A -> Prop) l :
  chain R l ->
  forall i a b, nth_error l i = Some a -> nth_error l (S i) = Some b -> R a b.
Proof.
  induction l as [|x l IH]; intros Hc i a b Ha Hb.
  - destruct i; discriminate.
  - destruct Hc as [Hx Hc]. destruct i as [|i].
    + simpl in Ha, Hb. destruct l; [discriminate|].
      simpl in Hb. congruence.
    + simpl in Ha. apply (IH Hc i); assumption.
Qed.

Lemma chain_app_l {A} (R : A -> A -> Prop) l l' :
  chain R (l ++ l') -> chain R l.
Proof.
  induction l as [|x l IH]; simpl; [trivial|].
  intros [Hx Hc]. split; [|apply IH; assumption].
  destruct l; [exact I | exact Hx].
Qed.

Lemma chain_snoc {A} (R : A -> A -> Prop) l a b :
  chain R (l ++ [a]) -> R a b -> chain R ((l ++ [a]) ++ [b]).
Proof.
  induction l as [|x l IH]; simpl.
  - intros _ H. repeat split. assumption.
  - intros [Hx Hc] H. split; [|apply IH; assumption].
    destruct l; exact Hx.
Qed.

Lemma chain_last {A} (R : A -> A -> Prop) l a a' :
  chain R (l ++ [a]) -> (forall x, R x a -> R x a') -> chain R (l ++ [a']).
Proof.
  induction l as [|x l IH]; simpl.
  - intros _ _. split; exact I.
  - intros [Hx Hc] H. split; [|apply IH; assumption].
    destruct l; simpl in *; [apply H; assumption | assumption].
Qed.

Section Overlap.
Variables (cs ov : Z) (mc : option Z) (all_paras : list str).
Hypothesis ov_pos : 0 < ov.
Hypothesis paras_trimmed :
  forall para, In para all_paras -> trimmed para /\ para <> [].

Lemma overlaps_empty x b :
  overlaps ov all_paras x [] -> overlaps ov all_paras x b.
Proof.
  intros H Hlen. destruct (H Hlen) as (para & rest & _ & E).
  destruct (lstrip (slice_from x (- ov))); discriminate.
Qed.

Lemma overlaps_append x buf para :
  overlaps ov all_paras x buf -> overlaps ov all_paras x (buf ++ nl :: para).
Proof.
  intros H Hlen. destruct (H Hlen) as (p & rest & Hin & ->).
  exists p, (rest ++ nl :: para). split; [assumption|].
  rewrite <- app_assoc. simpl. rewrite <- app_assoc. reflexivity.
Qed.

Lemma overlaps_seed buf para :
  trimmed buf -> In para all_paras ->
  overlaps ov all_paras buf (seed ov buf para).
Proof.
  intros [_ Hr] Hin Hlen.
  destruct (paras_trimmed para Hin) as [Hp Hpne].
  exists para, []. split; [assumption|]. rewrite app_nil_r.
  unfold seed.
  destruct (Z.eqb_spec ov 0) as [|_]; [lia|].
  destruct (Z.ltb_spec ov (len buf)) as [_|]; [|lia]. simpl.
  apply strip_tail_para; [|assumption|assumption].
  unfold len in Hlen.
  destruct (slice_from_tail buf ov ov_pos Hlen) as [Hs Hl].
  apply (lstrip_suffix_some (firstn (length buf - Z.to_nat ov) buf)).
  - rewrite Hs, firstn_skipn. assumption.
  - intros E. rewrite E in Hl. simpl in Hl. lia.
Qed.

Lemma chunk_loop_overlaps paras :
  incl paras all_paras ->
  forall chunks buf,
    trimmed buf -> chain (overlaps ov all_paras) (chunks ++ [buf]) ->
    match chunk_loop cs ov mc paras chunks buf with
    | Returned c => chain (overlaps ov all_paras) c
    | Exhausted c b => chain (overlaps ov all_paras) (c ++ [b])
    end.
Proof.
  induction paras as [|para rest IH]; intros Hincl chunks buf Htr Hch.
  - simpl. assumption.
  - assert (Hp : In para all_paras) by (apply Hincl; left; reflexivity).
    assert (Hrest : incl rest all_paras)
      by (intros x Hx; apply Hincl; right; assumption).
    destruct (paras_trimmed para Hp) as [Hpt Hpne].
    simpl. destruct (len buf + len para + 1 <=? cs).
    + apply IH; [assumption | apply strip_trimmed |].
      apply (chain_last _ _ _ _ Hch). intros x Hx.
      destruct buf as [|c buf'].
      * apply overlaps_empty. assumption.
      * rewrite strip_buf_para by (assumption || discriminate).
        apply overlaps_append. assumption.
    + destruct (truthy buf) eqn:Hb.
      * destruct (reached _ _); [assumption|].
        apply IH; [assumption | apply strip_trimmed |].
        apply chain_snoc; [assumption|].
        apply overlaps_seed; assumption.
      * apply IH; [assumption | apply strip_trimmed |].
        apply (chain_last _ _ _ _ Hch). intros x Hx.
        apply truthy_false in Hb. subst buf.
        apply overlaps_empty. assumption.
Qed.
End Overlap.

End ChunkerProps.
Import ChunkerProps.

(* ===================================================================== *)
(** ** The chunker: ceiling, chunk length, overlap *)
(* ===================================================================== *)

(** C2, as stated, at [max_chunks = 0]: the ceiling is not enforced, one
    chunk comes back where at most zero are promised. *)
Lemma chunk_text_max_chunks_zero :
  ~ (Z.of_nat (length (chunk_text (py "a") 1200 200 (Some 0))) <= 0).
Proof. vm_compute. intros H. apply H. reflexivity. Qed.

(** C2 (amended): with [max_chunks = n] and [n >= 1], [chunk_text] returns
    the first [n] chunks of what it returns without a ceiling: never more
    than [n], and exactly [n] when the input has that many.  With
    [max_chunks = 0] it returns what it returns without a ceiling. *)
Theorem chunk_text_max_chunks text cs ov n :
  (1 <= n ->
   chunk_text text cs ov (Some n) =
     firstn (Z.to_nat n) (chunk_text text cs ov None)
   /\ Z.of_nat (length (chunk_text text cs ov (Some n))) <= n
   /\ (n <= Z.of_nat (length (chunk_text text cs ov None)) ->
       Z.of_nat (length (chunk_text text cs ov (Some n))) = n))
  /\ chunk_text text cs ov (Some 0) = chunk_text text cs ov None.
Proof.
  split.
  - intros Hn.
    assert (E : chunk_text text cs ov (Some n) =
                firstn (Z.to_nat n) (chunk_text text cs ov None)).
    { rewrite !chunk_text_finish. apply chunk_loop_ceiling; simpl; lia. }
    split; [exact E|]. rewrite E, length_firstn. split; lia.
  - rewrite !chunk_text_finish, chunk_loop_zero.
    destruct (chunk_loop cs ov None (paragraphs text) [] []); reflexivity.
Qed.

Lemma chunk_text_max_chunks_witness :
  1 <= 2 /\
  chunk_text (py "a" ++ nl :: py "b" ++ nl :: py "c") 1 0 (Some 2) =
    [py "a"; py "b"].
Proof.
  split; [lia|].
  destruct (chunk_text_max_chunks
              (py "a" ++ nl :: py "b" ++ nl :: py "c") 1 0 2) as [H _].
  destruct H as [E _]; [lia|].
  rewrite E. reflexivity.
Defined.

(** C3, as stated, at two paragraphs of 8 characters, [chunk_size = 10] and
    [overlap = 5]: the second chunk is 14 characters long and is not a
    single paragraph. *)
Lemma chunk_text_overflow_by_overlap :
  ~ (forall c, In c (chunk_text overflow_text 10 5 None) ->
               len c <= 10 \/ (In c (paragraphs overflow_text) /\ 10 < len c)).
Proof.
  intros H.
  destruct (H (py "aaaaa" ++ nl :: py "bbbbbbbb")) as [Hlen | [Hin _]].
  - vm_compute. right. left. reflexivity.
  - vm_compute in Hlen. apply Hlen. reflexivity.
  - vm_compute in Hin. destruct Hin as [Hin | [Hin | []]]; discriminate.
Qed.

(** With the default [chunk_size] and [overlap], two paragraphs of 1100
    characters give a second chunk of 1301. *)
Example chunk_text_overflow_defaults :
  map len (chunk_text (repeat 97%N 1100 ++ nl :: repeat 98%N 1100)
             default_chunk_size default_overlap None) = [1100; 1301].
Proof. vm_compute. reflexivity. Qed.

(** C3 (amended): every chunk is at most [chunk_size] long, or is a buffer
    as seeded after a flush: a tail of the chunk before it (at most
    [overlap] characters when [overlap >= 0]), a newline and one whole
    paragraph, trimmed.  Such a chunk is at most [overlap + 1 + len(para)]
    long, and without a tail it is the paragraph alone. *)
Theorem chunk_text_chunk_length text cs ov mc c :
  In c (chunk_text text cs ov mc) ->
  len c <= cs \/
  exists tail para,
    In para (paragraphs text) /\
    c = strip (tail ++ nl :: para) /\
    (0 <= ov -> len tail <= ov) /\
    len c <= len tail + 1 + len para /\
    (tail = [] -> c = para).
Proof.
  intros Hin.
  assert (Hs : sized cs ov (paragraphs text) c).
  { rewrite chunk_text_finish in Hin.
    pose proof (chunk_loop_sized cs ov mc (paragraphs text) (paragraphs text)
                  (incl_refl _) [] [] (Forall_nil _) (or_introl eq_refl)) as H.
    destruct (chunk_loop cs ov mc (paragraphs text) [] []) as [ch | ch buf];
      simpl in Hin.
    - rewrite Forall_forall in H. apply H. assumption.
    - destruct H as [Hch Hbuf]. rewrite Forall_forall in Hch.
      destruct (truthy buf) eqn:Hb; simpl in Hin;
        [destruct (below mc ch); simpl in Hin|]; try (apply Hch; assumption).
      apply in_app_or in Hin. destruct Hin as [Hin | [<- | []]];
        [apply Hch; assumption|].
      destruct Hbuf as [-> | Hbuf]; [discriminate | assumption]. }
  destruct Hs as [Hs | (tail & para & Hp & -> & Hov)]; [left; assumption|].
  right. exists tail, para. repeat split; try assumption.
  - pose proof (strip_length (tail ++ nl :: para)) as Hl.
    unfold len in *. rewrite length_app in Hl. simpl in Hl. lia.
  - intros ->. apply strip_nl_para.
    apply (paragraphs_trimmed text). assumption.
Qed.

Lemma chunk_text_chunk_length_witness :
  In (py "aaaaa" ++ nl :: py "bbbbbbbb") (chunk_text overflow_text 10 5 None)
  /\ (len (py "aaaaa" ++ nl :: py "bbbbbbbb") <= 10 \/
      exists tail para,
        In para (paragraphs overflow_text) /\
        py "aaaaa" ++ nl :: py "bbbbbbbb" = strip (tail ++ nl :: para) /\
        (0 <= 5 -> len tail <= 5) /\
        len (py "aaaaa" ++ nl :: py "bbbbbbbb") <= len tail + 1 + len para /\
        (tail = [] -> py "aaaaa" ++ nl :: py "bbbbbbbb" = para)).
Proof.
  assert (Hin : In (py "aaaaa" ++ nl :: py "bbbbbbbb")
                  (chunk_text overflow_text 10 5 None))
    by (vm_compute; right; left; reflexivity).
  split; [exact Hin|].
  exact (chunk_text_chunk_length overflow_text 10 5 None _ Hin).
Defined.

(** C4, as stated, at ["ab cd\nxyz"] with [chunk_size = 6] and
    [overlap = 3]: the first chunk is longer than the overlap, its last
    three characters are [" cd"], and they occur nowhere in the second. *)
Lemma chunk_text_tail_not_kept :
  chunk_text trimmed_tail_text 6 3 None =
    [py "ab cd"; py "cd" ++ nl :: py "xyz"]
  /\ 3 < len (py "ab cd")
  /\ slice_from (py "ab cd") (- 3) = py " cd"
  /\ ~ (exists pre rest,
          py "cd" ++ nl :: py "xyz" = pre ++ py " cd" ++ rest).
Proof.
  split; [reflexivity|]. split; [reflexivity|]. split; [reflexivity|].
  intros (pre & rest & H).
  assert (Hin : In 32%N (py "cd" ++ nl :: py "xyz")).
  { rewrite H. apply in_or_app. right. left. reflexivity. }
  vm_compute in Hin.
  repeat (destruct Hin as [Hin | Hin]; [discriminate|]). exact Hin.
Qed.

(** C4 (amended): with [overlap > 0], for consecutive chunks [a], [b] where
    [a] is longer than [overlap], [b] starts with the last [overlap]
    characters of [a] less their leading white space, then a newline and a
    paragraph of the text. *)
Theorem chunk_text_overlap_tail text cs ov mc i a b :
  0 < ov ->
  nth_error (chunk_text text cs ov mc) i = Some a ->
  nth_error (chunk_text text cs ov mc) (S i) = Some b ->
  ov < len a ->
  len (slice_from a (- ov)) = ov /\
  exists para rest,
    In para (paragraphs text) /\
    b = lstrip (slice_from a (- ov)) ++ nl :: para ++ rest.
Proof.
  intros Hov Ha Hb Hlen.
  split; [apply slice_from_tail; assumption|].
  assert (Hc : chain (overlaps ov (paragraphs text))
                 (chunk_text text cs ov mc)).
  { rewrite chunk_text_finish.
    pose proof (chunk_loop_overlaps cs ov mc (paragraphs text) Hov
                  (paragraphs_trimmed text) (paragraphs text) (incl_refl _)
                  [] [] (conj eq_refl eq_refl) (conj I I)) as H.
    destruct (chunk_loop cs ov mc (paragraphs text) [] []) as [ch | ch buf];
      simpl; [assumption|].
    destruct (truthy buf && below mc ch); [assumption|].
    apply (chain_app_l _ _ _ H). }
  exact (chain_nth _ _ Hc i a b Ha Hb Hlen).
Qed.

Lemma chunk_text_overlap_tail_witness :
  0 < 3 /\ 3 < len (py "ab cd") /\
  exists para rest,
    In para (paragraphs trimmed_tail_text) /\
    py "cd" ++ nl :: py "xyz" =
      lstrip (slice_from (py "ab cd") (- 3)) ++ nl :: para ++ rest.
Proof.
  split; [lia|]. split; [reflexivity|].
  apply (chunk_text_overlap_tail trimmed_tail_text 6 3 None 0
           (py "ab cd") (py "cd" ++ nl :: py "xyz"));
    [lia | reflexivity | reflexivity | reflexivity].
Defined.

(* ===================================================================== *)
(** ** PDF extraction fallback *)
(* ===================================================================== *)

Module ExtractorProps.

Lemma read_pdf_pymupdf_trimmed p max_pages txt2 :
  read_pdf_pymupdf p max_pages = Ok txt2 -> strip txt2 = txt2.
Proof.
  unfold read_pdf_pymupdf. destruct (doc_fitz p) as [doc|e]; simpl;
    [|discriminate].
  destruct (rmap _ _) as [parts|e]; simpl; [|discriminate].
  intros [= <-]. apply strip_idem.
Qed.

Lemma truthy_or_self (s : str) : (if truthy s then s else []) = s.
Proof. destruct s; reflexivity. Qed.

Lemma short_condition (txt : str) :
  len (strip txt) < 20 ->
  negb (truthy txt) || (len (strip txt) <? 20) = true.
Proof.
  intros H. apply orb_true_iff. right. apply Z.ltb_lt. assumption.
Qed.

Lemma long_condition (txt : str) :
  20 <= len (strip txt) ->
  negb (truthy txt) || (len (strip txt) <? 20) = false.
Proof.
  intros H. apply orb_false_iff. split.
  - destruct txt; [|reflexivity].
    vm_compute in H. exfalso. apply H. reflexivity.
  - apply Z.ltb_ge. assumption.
Qed.

End ExtractorProps.
Import ExtractorProps.

(** C5: [read_pdf] never raises.  When the primary extractor raised or gave
    fewer than 20 trimmed characters, the secondary extractor, called with
    the same [max_pages], decides: its text is returned when it is non-empty
    and strictly longer after trimming (so a 50-character secondary text
    wins), and the primary text is kept when the secondary raises; when
    both raise the result is the empty string.  A primary text of 20 or
    more trimmed characters is returned as it is. *)
Theorem read_pdf_fallback p max_pages :
  (exists txt, read_pdf p max_pages = Ok txt) /\
  (len (strip (primary_text p max_pages)) < 20 ->
   (forall txt2,
      read_pdf_pymupdf p max_pages = Ok txt2 ->
      txt2 <> [] ->
      len (strip (primary_text p max_pages)) < len (strip txt2) ->
      read_pdf p max_pages = Ok txt2) /\
   (forall txt2,
      read_pdf_pymupdf p max_pages = Ok txt2 ->
      len txt2 = 50 ->
      read_pdf p max_pages = Ok txt2) /\
   (forall e,
      read_pdf_pymupdf p max_pages = Raise e ->
      read_pdf p max_pages = Ok (primary_text p max_pages))) /\
  (forall e1 e2,
     read_pdf_pypdf p max_pages = Raise e1 ->
     read_pdf_pymupdf p max_pages = Raise e2 ->
     read_pdf p max_pages = Ok []) /\
  (20 <= len (strip (primary_text p max_pages)) ->
   read_pdf p max_pages = Ok (primary_text p max_pages)).
Proof.
  assert (Hpref : len (strip (primary_text p max_pages)) < 20 ->
            forall txt2,
              read_pdf_pymupdf p max_pages = Ok txt2 ->
              txt2 <> [] ->
              len (strip (primary_text p max_pages)) < len (strip txt2) ->
              read_pdf p max_pages = Ok txt2).
  { intros Hshort txt2 H2 Hne Hlt. unfold read_pdf.
    fold (primary_text p max_pages).
    rewrite (short_condition _ Hshort), H2. simpl.
    apply Z.ltb_lt in Hlt. rewrite Hlt.
    destruct txt2; [congruence | reflexivity]. }
  split; [eexists; reflexivity|]. split; [|split].
  - intros Hshort. split; [exact (Hpref Hshort)|]. split.
    + intros txt2 H2 Hlen. apply (Hpref Hshort); [assumption | |].
      * intros ->. discriminate.
      * rewrite (read_pdf_pymupdf_trimmed _ _ _ H2). lia.
    + intros e H2. unfold read_pdf. fold (primary_text p max_pages).
      rewrite (short_condition _ Hshort), H2. simpl.
      rewrite truthy_or_self. reflexivity.
  - intros e1 e2 H1 H2. unfold read_pdf. rewrite H1, H2. reflexivity.
  - intros Hlong. unfold read_pdf. fold (primary_text p max_pages).
    rewrite (long_condition _ Hlong), truthy_or_self. reflexivity.
Qed.

Lemma read_pdf_fallback_witness :
  read_pdf scanned_pdf None =
    Ok (py "0123456789012345678901234" ++ nl
          :: py "012345678901234567890123").
Proof.
  destruct (read_pdf_fallback scanned_pdf None) as (_ & H & _).
  destruct H as (_ & H50 & _); [vm_compute; reflexivity|].
  apply H50; reflexivity.
Defined.

(* ===================================================================== *)
(** ** The retry loops *)
(* ===================================================================== *)

Module RetryProps.

(** One turn of the embedding loop. *)
Lemma embed_one_unfold E t attempts tr :
  embed_one E t attempts tr =
  match embeddings_try E t tr with
  | Ok v => (Ok v, tr ++ [EvEmbeddings t])
  | Raise e =>
      if is_request_exception e then
        if (3 <=? S attempts)%nat then
          (Raise (HTTPException 503 (py "Embeddings error: " ++ str_exn e)),
           tr ++ [EvEmbeddings t])
        else
          embed_one E t (S attempts)
            (tr ++ [EvEmbeddings t; EvSleep (2 * Z.of_nat (S attempts))])
      else (Raise e, tr ++ [EvEmbeddings t])
  end.
Proof.
  rewrite embed_one_equation_1. unfold perform.
  destruct (embeddings_try E t tr) as [v|e]; [reflexivity|].
  cbn -[py Z.of_nat Z.mul embed_one app str_exn is_request_exception Nat.leb].
  destruct (is_request_exception e); [|reflexivity].
  destruct attempts as [|[|n]]; [| |reflexivity];
    cbn -[py Z.of_nat Z.mul embed_one]; rewrite <- app_assoc; reflexivity.
Qed.

(** One turn of the generation loop. *)
Lemma chat_generate_unfold E prompt used attempts tr :
  chat_generate E prompt used attempts tr =
  match chat_try E prompt used tr with
  | Ok a => (Ok a, tr ++ [EvChat prompt])
  | Raise e =>
      if is_request_exception e then
        if (2 <=? S attempts)%nat then
          (Raise (HTTPException 503 (py "Ollama chat error: " ++ str_exn e)),
           tr ++ [EvChat prompt])
        else
          chat_generate E prompt used (S attempts)
            (tr ++ [EvChat prompt; EvSleep (4 * Z.of_nat (S attempts))])
      else (Raise e, tr ++ [EvChat prompt])
  end.
Proof.
  rewrite chat_generate_equation_1. unfold perform.
  destruct (chat_try E prompt used tr) as [a|e]; [reflexivity|].
  cbn -[py Z.of_nat Z.mul chat_generate app str_exn is_request_exception
        Nat.leb].
  destruct (is_request_exception e); [|reflexivity].
  destruct attempts as [|n]; [|reflexivity].
  cbn -[py Z.of_nat Z.mul chat_generate]. rewrite <- app_assoc. reflexivity.
Qed.

Lemma embed_each_cons E t rest out tr :
  embed_each E (t :: rest) out tr =
  match embed_one E t 0 tr with
  | (Ok v, tr') => embed_each E rest (out ++ [v]) tr'
  | (Raise e, tr') => (Raise e, tr')
  end.
Proof. reflexivity. Qed.

End RetryProps.
Import RetryProps.

(** C6: for the text [t] the loop of [embed_texts] has reached, with the
    vectors [out] so far.  A first attempt that succeeds costs one call.
    After one failure of the retried kind the loop sleeps 2 seconds and
    calls again; after a second, 4 seconds; a call that then succeeds gives
    its vector, at whichever attempt.  A third failure raises
    [HTTPException(503)] whose detail carries that last error, after exactly
    three calls and no further sleep. *)
Theorem embed_texts_retry E t rest out tr :
  (forall v,
     embeddings_try E t tr = Ok v ->
     embed_each E (t :: rest) out tr =
       embed_each E rest (out ++ [v]) (tr ++ [EvEmbeddings t])) /\
  (forall e1,
     retried (embeddings_try E t tr) e1 ->
     (forall v,
        embeddings_try E t (tr ++ [EvEmbeddings t; EvSleep 2]) = Ok v ->
        embed_each E (t :: rest) out tr =
          embed_each E rest (out ++ [v])
            (tr ++ [EvEmbeddings t; EvSleep 2; EvEmbeddings t])) /\
     (forall e2,
        retried (embeddings_try E t (tr ++ [EvEmbeddings t; EvSleep 2])) e2 ->
        (forall v,
           embeddings_try E t
             (tr ++ [EvEmbeddings t; EvSleep 2; EvEmbeddings t; EvSleep 4])
             = Ok v ->
           embed_each E (t :: rest) out tr =
             embed_each E rest (out ++ [v])
               (tr ++ [EvEmbeddings t; EvSleep 2; EvEmbeddings t; EvSleep 4;
                       EvEmbeddings t])
           /\ embed_texts E [t] tr =
                (Ok [v],
                 tr ++ [EvEmbeddings t; EvSleep 2; EvEmbeddings t; EvSleep 4;
                        EvEmbeddings t])) /\
        (forall e3,
           retried
             (embeddings_try E t
                (tr ++ [EvEmbeddings t; EvSleep 2; EvEmbeddings t; EvSleep 4]))
             e3 ->
           embed_each E (t :: rest) out tr =
             (Raise (HTTPException 503
                       (py "Embeddings error: " ++ str_exn e3)),
              tr ++ [EvEmbeddings t; EvSleep 2; EvEmbeddings t; EvSleep 4;
                     EvEmbeddings t])))).
Proof.
  split.
  { intros v H. rewrite embed_each_cons, embed_one_unfold, H. reflexivity. }
  intros e1 [H1 R1].
  assert (Step1 : embed_one E t 0 tr =
                  embed_one E t 1 (tr ++ [EvEmbeddings t; EvSleep 2])).
  { rewrite embed_one_unfold, H1, R1. reflexivity. }
  split.
  { intros v H. rewrite embed_each_cons, Step1, embed_one_unfold, H.
    rewrite <- app_assoc. reflexivity. }
  intros e2 [H2 R2].
  assert (Step2 : embed_one E t 0 tr =
                  embed_one E t 2
                    (tr ++ [EvEmbeddings t; EvSleep 2; EvEmbeddings t;
                            EvSleep 4])).
  { rewrite Step1, embed_one_unfold, H2, R2. cbn [Nat.leb].
    rewrite <- app_assoc. reflexivity. }
  split.
  - intros v H.
    assert (Hone : embed_one E t 0 tr =
                   (Ok v, tr ++ [EvEmbeddings t; EvSleep 2; EvEmbeddings t;
                                 EvSleep 4; EvEmbeddings t])).
    { rewrite Step2, embed_one_unfold, H, <- app_assoc. reflexivity. }
    split.
    + rewrite embed_each_cons, Hone. reflexivity.
    + unfold embed_texts. rewrite embed_each_cons, Hone. reflexivity.
  - intros e3 [H3 R3].
    rewrite embed_each_cons, Step2, embed_one_unfold, H3, R3.
    cbn [Nat.leb]. rewrite <- app_assoc. reflexivity.
Qed.

Lemma embed_texts_retry_witness :
  embed_texts (world (flaky_embeddings 2) (flaky_chat 0 (says [])) [])
    [py "hola"] [] =
  (Ok [vec (py "hola")],
   [EvEmbeddings (py "hola"); EvSleep 2; EvEmbeddings (py "hola"); EvSleep 4;
    EvEmbeddings (py "hola")])
  /\
  embed_texts (world (flaky_embeddings 3) (flaky_chat 0 (says [])) [])
    [py "hola"] [] =
  (Raise (HTTPException 503 (py "Embeddings error: Read timed out.")),
   [EvEmbeddings (py "hola"); EvSleep 2; EvEmbeddings (py "hola"); EvSleep 4;
    EvEmbeddings (py "hola")]).
Proof.
  split.
  - destruct (embed_texts_retry
                (world (flaky_embeddings 2) (flaky_chat 0 (says [])) [])
                (py "hola") [] [] []) as [_ H].
    destruct (H timed_out) as [_ H2]; [split; reflexivity|].
    destruct (H2 timed_out) as [H3 _]; [split; reflexivity|].
    destruct (H3 (vec (py "hola"))) as [_ H4]; [reflexivity|].
    exact H4.
  - destruct (embed_texts_retry
                (world (flaky_embeddings 3) (flaky_chat 0 (says [])) [])
                (py "hola") [] [] []) as [_ H].
    destruct (H timed_out) as [_ H2]; [split; reflexivity|].
    destruct (H2 timed_out) as [_ H3]; [split; reflexivity|].
    apply (H3 timed_out). split; reflexivity.
Defined.

(** C7, as stated, at a backend that answers with status 500: the error is
    an answer of the backend, neither a timeout nor a network failure, and
    [embed_texts] does not let it through at once: it calls three times,
    sleeps in between, and raises its own [HTTPException(503)]. *)
Lemma embed_texts_http_error_retried :
  embeddings_try (world failing_embeddings (flaky_chat 0 (says [])) [])
    (py "hola") [] = Raise server_error
  /\ timeout_or_network server_error = false
  /\ embed_texts (world failing_embeddings (flaky_chat 0 (says [])) [])
       [py "hola"] [] =
     (Raise (HTTPException 503
               (py "Embeddings error: 500 Server Error: Internal Server Error")),
      [EvEmbeddings (py "hola"); EvSleep 2; EvEmbeddings (py "hola");
       EvSleep 4; EvEmbeddings (py "hola")])
  /\ embed_texts (world failing_embeddings (flaky_chat 0 (says [])) [])
       [py "hola"] [] <>
     (Raise server_error, [EvEmbeddings (py "hola")]).
Proof.
  split; [reflexivity|]. split; [reflexivity|]. split; [reflexivity|].
  vm_compute. discriminate.
Qed.

(** C7 (amended): an exception of the [try] body that is not a
    [RequestException] leaves [embed_texts] at once, as it is, after that
    one call and without a sleep.  So does the [KeyError] of a reply that
    was received with a good status and whose body has no ["embedding"]
    field, and so does whatever [r.json()] raises on a malformed body when
    that is not a [RequestException].  A reply with an error status is
    not among them: [raise_for_status] makes it an [HTTPError], which the
    loop retries like a timeout. *)
Theorem embed_texts_no_retry E t rest out tr :
  (forall e,
     embeddings_try E t tr = Raise e ->
     is_request_exception e = false ->
     embed_each E (t :: rest) out tr = (Raise e, tr ++ [EvEmbeddings t])) /\
  (forall status reason body,
     embeddings_api E tr t = Reply status reason body ->
     400 <= status < 600 ->
     retried (embeddings_try E t tr) (RequestException HTTPError reason)) /\
  (forall status reason,
     embeddings_api E tr t = Reply status reason (Ok None) ->
     raise_for_status status reason = Ok tt ->
     embed_each E (t :: rest) out tr =
       (Raise (KeyError (py "embedding")), tr ++ [EvEmbeddings t])) /\
  (forall status reason e,
     embeddings_api E tr t = Reply status reason (Raise e) ->
     raise_for_status status reason = Ok tt ->
     is_request_exception e = false ->
     embed_each E (t :: rest) out tr = (Raise e, tr ++ [EvEmbeddings t])).
Proof.
  assert (H0 : forall e,
             embeddings_try E t tr = Raise e ->
             is_request_exception e = false ->
             embed_each E (t :: rest) out tr =
               (Raise e, tr ++ [EvEmbeddings t])).
  { intros e H R. rewrite embed_each_cons, embed_one_unfold, H, R.
    reflexivity. }
  split; [exact H0|]. split; [|split].
  - intros status reason body Hr Hs. split; [|reflexivity].
    unfold embeddings_try, raise_for_status. rewrite Hr.
    destruct (Z.leb_spec 400 status); [|lia].
    destruct (Z.ltb_spec status 600); [|lia]. reflexivity.
  - intros status reason Hr Hs. apply H0; [|reflexivity].
    unfold embeddings_try. rewrite Hr, Hs. reflexivity.
  - intros status reason e Hr Hs R. apply H0; [|assumption].
    unfold embeddings_try. rewrite Hr, Hs. reflexivity.
Qed.

Lemma embed_texts_no_retry_witness :
  embed_texts (world keyless_embeddings (flaky_chat 0 (says [])) [])
    [py "hola"; py "mundo"] [] =
  (Raise (KeyError (py "embedding")), [EvEmbeddings (py "hola")]).
Proof.
  destruct (embed_texts_no_retry
              (world keyless_embeddings (flaky_chat 0 (says [])) [])
              (py "hola") [py "mundo"] [] []) as (_ & _ & H & _).
  apply (H 200 (py "OK")); reflexivity.
Defined.

(* ===================================================================== *)
(** ** Chat *)
(* ===================================================================== *)

Module ChatProps.

Lemma chat_after_retrieval E q tr qvec tr1 hits :
  retrieved E q tr qvec tr1 hits ->
  chat E q tr =
  chat_generate E (build_prompt (fst (context_of hits)) q)
    (snd (context_of hits)) 0 (tr1 ++ [EvSearch qvec (TOP_K E)]).
Proof.
  intros [He Hs]. unfold chat, bind, embed_texts.
  rewrite embed_each_cons, He.
  cbn [embed_each ret app lift first_vector].
  unfold search, perform. rewrite Hs. reflexivity.
Qed.

(** Zero hits give the empty context and the count zero, as the general
    formula does. *)
Lemma context_of_ranked hits :
  context_of hits =
  (join blank_line (map hit_text (hd [] hits)),
   Z.of_nat (length (hd [] hits))).
Proof.
  destruct hits as [|h0 more]; [reflexivity|].
  destruct h0 as [|h h0]; reflexivity.
Qed.

Lemma chat_try_ok E prompt used tr a u :
  chat_try E prompt used tr = Ok (a, u) -> u = used /\ a <> [].
Proof.
  unfold chat_try. destruct (chat_api E tr prompt) as [e|status reason body];
    [discriminate|].
  destruct (raise_for_status status reason); [|discriminate].
  destruct body as [data|e]; [|discriminate]. cbn [rbind].
  destruct (extract_answer data) as [|c s]; [discriminate|].
  cbn [truthy negb]. intros H. injection H as <- <-.
  split; [reflexivity | discriminate].
Qed.

Lemma chat_generate_ok E prompt used attempts tr a u tr' :
  chat_generate E prompt used attempts tr = (Ok (a, u), tr') ->
  u = used /\ a <> [].
Proof.
  rewrite chat_generate_unfold.
  destruct (chat_try E prompt used tr) as [[a0 u0]|e] eqn:H1.
  { intros [= <- <- _]. exact (chat_try_ok _ _ _ _ _ _ H1). }
  destruct (is_request_exception e); [|discriminate].
  destruct attempts as [|n]; [|discriminate]. cbn [Nat.leb].
  rewrite chat_generate_unfold.
  destruct (chat_try E prompt used (tr ++ _)) as [[a0 u0]|e'] eqn:H2.
  { intros [= <- <- _]. exact (chat_try_ok _ _ _ _ _ _ H2). }
  destruct (is_request_exception e'); discriminate.
Qed.

End ChatProps.
Import ChatProps.

(** C8: once the question is embedded and the search has answered, the
    prompt sent to the generation backend holds the texts of the hits of
    the first result list, in rank order, joined by a blank line; with no
    hits the context is empty and [used_docs] is 0.  Whenever [chat]
    returns, [used_docs] is the number of those hits and the answer is not
    empty; a first reply with content is returned at once. *)
Theorem chat_context_and_used_docs E q tr qvec tr1 hits :
  retrieved E q tr qvec tr1 hits ->
  let ranked := hd [] hits in
  let ctx := join blank_line (map hit_text ranked) in
  let tr2 := tr1 ++ [EvSearch qvec (TOP_K E)] in
  chat E q tr =
    chat_generate E (build_prompt ctx q) (Z.of_nat (length ranked)) 0 tr2 /\
  (forall answer used tr',
     chat E q tr = (Ok (answer, used), tr') ->
     used = Z.of_nat (length ranked) /\ answer <> []) /\
  (forall status reason data,
     chat_api E tr2 (build_prompt ctx q) = Reply status reason (Ok data) ->
     raise_for_status status reason = Ok tt ->
     extract_answer data <> [] ->
     chat E q tr =
       (Ok (extract_answer data, Z.of_nat (length ranked)),
        tr2 ++ [EvChat (build_prompt ctx q)])) /\
  (ranked = [] ->
   ctx = [] /\
   chat E q tr = chat_generate E (build_prompt [] q) 0 0 tr2 /\
   build_prompt [] q =
     py "Usa estrictamente el contexto para responder. "
     ++ py "Si el contexto no contiene la respuesta, indica claramente que no est"
     ++ [225%N] ++ py " en los documentos." ++ [nl; nl]
     ++ py "[Contexto]" ++ [nl; nl; nl]
     ++ py "[Pregunta]" ++ [nl] ++ q ++ [nl; nl] ++ py "Respuesta:").
Proof.
  intros Hr ranked ctx tr2.
  assert (Hchat : chat E q tr =
            chat_generate E (build_prompt ctx q) (Z.of_nat (length ranked))
              0 tr2).
  { rewrite (chat_after_retrieval _ _ _ _ _ _ Hr), context_of_ranked.
    reflexivity. }
  split; [exact Hchat|]. split; [|split].
  - intros answer used tr' H. rewrite Hchat in H.
    exact (chat_generate_ok _ _ _ _ _ _ _ _ H).
  - intros status reason data Hreply Hs Hne.
    rewrite Hchat, chat_generate_unfold. unfold chat_try.
    rewrite Hreply, Hs. cbn [rbind].
    destruct (extract_answer data); [congruence | reflexivity].
  - intros Hnil. subst ctx. rewrite Hchat. subst ranked. rewrite Hnil.
    repeat split; reflexivity.
Qed.

Lemma chat_context_and_used_docs_witness :
  chat (world (flaky_embeddings 0) (flaky_chat 0 (says (py "Paris"))) capitals)
    question [] =
  (Ok (py "Paris", 2),
   [EvEmbeddings question; EvSearch (vec question) 4;
    EvChat (build_prompt
              (py "Paris is the capital of France." ++ [nl; nl]
               ++ py "Berlin is the capital of Germany.") question)])
  /\
  chat (world (flaky_embeddings 0) (flaky_chat 0 (says (py "No consta."))) [])
    question [] =
  (Ok (py "No consta.", 0),
   [EvEmbeddings question; EvSearch (vec question) 4;
    EvChat (build_prompt [] question)]).
Proof.
  split.
  - destruct (chat_context_and_used_docs
                (world (flaky_embeddings 0) (flaky_chat 0 (says (py "Paris")))
                   capitals)
                question [] (vec question) [EvEmbeddings question] capitals)
      as (_ & _ & H & _); [split; reflexivity|].
    apply (H 200 (py "OK") (says (py "Paris")));
      [reflexivity | reflexivity | discriminate].
  - destruct (chat_context_and_used_docs
                (world (flaky_embeddings 0)
                   (flaky_chat 0 (says (py "No consta."))) [])
                question [] (vec question) [EvEmbeddings question] [])
      as (_ & _ & H & _); [split; reflexivity|].
    apply (H 200 (py "OK") (says (py "No consta.")));
      [reflexivity | reflexivity | discriminate].
Defined.

(** C9: once retrieval is done, a generation call that fails with a
    [RequestException] is followed by a sleep of 4 seconds and one more
    call; what that second call returns is the answer, and if it fails the
    same way [chat] raises [HTTPException(503)] carrying that error, after
    two calls in all.  A reply received with a good status but with no
    content raises [HTTPException(503)] at once and is not retried. *)
Theorem chat_generation_retry E q tr qvec tr1 hits :
  retrieved E q tr qvec tr1 hits ->
  let prompt := build_prompt (fst (context_of hits)) q in
  let used := snd (context_of hits) in
  let tr2 := tr1 ++ [EvSearch qvec (TOP_K E)] in
  (forall e1,
     retried (chat_try E prompt used tr2) e1 ->
     (forall a,
        chat_try E prompt used (tr2 ++ [EvChat prompt; EvSleep 4]) = Ok a ->
        chat E q tr =
          (Ok a, tr2 ++ [EvChat prompt; EvSleep 4; EvChat prompt])) /\
     (forall e2,
        retried (chat_try E prompt used (tr2 ++ [EvChat prompt; EvSleep 4]))
          e2 ->
        chat E q tr =
          (Raise (HTTPException 503
                    (py "Ollama chat error: " ++ str_exn e2)),
           tr2 ++ [EvChat prompt; EvSleep 4; EvChat prompt]))) /\
  (forall status reason data,
     chat_api E tr2 prompt = Reply status reason (Ok data) ->
     raise_for_status status reason = Ok tt ->
     extract_answer data = [] ->
     chat E q tr =
       (Raise (HTTPException 503
                 (py "Ollama no devolvi" ++ [243%N] ++ py " contenido.")),
        tr2 ++ [EvChat prompt])).
Proof.
  intros Hr prompt used tr2.
  pose proof (chat_after_retrieval _ _ _ _ _ _ Hr) as Hchat.
  fold prompt used tr2 in Hchat. split.
  - intros e1 [H1 R1].
    assert (Step : chat E q tr =
              chat_generate E prompt used 1
                (tr2 ++ [EvChat prompt; EvSleep 4])).
    { rewrite Hchat, chat_generate_unfold, H1, R1. reflexivity. }
    split.
    + intros a H. rewrite Step, chat_generate_unfold, H, <- app_assoc.
      reflexivity.
    + intros e2 [H2 R2].
      rewrite Step, chat_generate_unfold, H2, R2, <- app_assoc. reflexivity.
  - intros status reason data Hreply Hs Hempty.
    rewrite Hchat, chat_generate_unfold. unfold chat_try.
    rewrite Hreply, Hs. cbn [rbind]. rewrite Hempty. reflexivity.
Qed.

Lemma chat_generation_retry_witness :
  chat (world (flaky_embeddings 0) (flaky_chat 2 (says (py "Paris"))) capitals)
    question [] =
  (Raise (HTTPException 503 (py "Ollama chat error: Connection refused")),
   [EvEmbeddings question; EvSearch (vec question) 4;
    EvChat (build_prompt (fst (context_of capitals)) question); EvSleep 4;
    EvChat (build_prompt (fst (context_of capitals)) question)])
  /\
  chat (world (flaky_embeddings 0) (flaky_chat 0 (says [])) capitals)
    question [] =
  (Raise (HTTPException 503
            (py "Ollama no devolvi" ++ [243%N] ++ py " contenido.")),
   [EvEmbeddings question; EvSearch (vec question) 4;
    EvChat (build_prompt (fst (context_of capitals)) question)]).
Proof.
  split.
  - destruct (chat_generation_retry
                (world (flaky_embeddings 0) (flaky_chat 2 (says (py "Paris")))
                   capitals)
                question [] (vec question) [EvEmbeddings question] capitals)
      as [H _]; [split; reflexivity|].
    destruct (H refused) as [_ H2]; [split; reflexivity|].
    apply (H2 refused). split; reflexivity.
  - destruct (chat_generation_retry
                (world (flaky_embeddings 0) (flaky_chat 0 (says [])) capitals)
                question [] (vec question) [EvEmbeddings question] capitals)
      as [_ H]; [split; reflexivity|].
    apply (H 200 (py "OK") (says [])); reflexivity.
Defined.

(* ===================================================================== *)
(** ** Ingestion *)
(* ===================================================================== *)

Module IngestProps.

Lemma quiet_ret {A} (a : A) : quiet (ret a).
Proof.
  intros tr. exists []. split; [symmetry; apply app_nil_r | constructor].
Qed.

Lemma quiet_raise {A} (e : exn) : quiet (@raise A e).
Proof.
  intros tr. exists []. split; [symmetry; apply app_nil_r | constructor].
Qed.

Lemma quiet_lift {A} (r : result A) : quiet (lift r).
Proof.
  intros tr. exists []. split; [symmetry; apply app_nil_r | constructor].
Qed.

Lemma quiet_perform {A} ev (outcome : trace -> result A) :
  is_flush ev = false -> quiet (perform ev outcome).
Proof.
  intros H tr. exists [ev]. split; [reflexivity|].
  constructor; [assumption | constructor].
Qed.

Lemma quiet_bind {A B} (m : M A) (k : A -> M B) :
  quiet m -> (forall a, quiet (k a)) -> quiet (bind m k).
Proof.
  intros Hm Hk tr. unfold bind.
  destruct (Hm tr) as (evs & E & Hq).
  destruct (m tr) as [[a|e] tr1]; simpl in E; subst tr1.
  - destruct (Hk a (tr ++ evs)) as (evs' & E' & Hq').
    exists (evs ++ evs'). rewrite E', app_assoc.
    split; [reflexivity | apply Forall_app; split; assumption].
  - exists evs. split; [reflexivity | assumption].
Qed.

Lemma quiet_try_except {A} (body : M A) (handler : exn -> M A) :
  quiet body -> (forall e, quiet (handler e)) ->
  quiet (try_except body handler).
Proof.
  intros Hm Hk tr. unfold try_except.
  destruct (Hm tr) as (evs & E & Hq).
  destruct (body tr) as [[a|e] tr1]; simpl in E; subst tr1.
  - exists evs. split; [reflexivity | assumption].
  - destruct (Hk e (tr ++ evs)) as (evs' & E' & Hq').
    exists (evs ++ evs'). rewrite E', app_assoc.
    split; [reflexivity | apply Forall_app; split; assumption].
Qed.

Lemma embed_one_quiet E t :
  forall k attempts, (3 - attempts <= k)%nat -> quiet (embed_one E t attempts).
Proof.
  induction k as [|k IH]; intros attempts Hk tr; rewrite embed_one_unfold.
  - destruct (embeddings_try E t tr) as [v|e];
      [exists [EvEmbeddings t]; split; [reflexivity | repeat constructor]|].
    destruct (is_request_exception e);
      [|exists [EvEmbeddings t]; split; [reflexivity | repeat constructor]].
    destruct (Nat.leb_spec 3 (S attempts)); [|lia].
    exists [EvEmbeddings t]; split; [reflexivity | repeat constructor].
  - destruct (embeddings_try E t tr) as [v|e];
      [exists [EvEmbeddings t]; split; [reflexivity | repeat constructor]|].
    destruct (is_request_exception e);
      [|exists [EvEmbeddings t]; split; [reflexivity | repeat constructor]].
    destruct (Nat.leb_spec 3 (S attempts));
      [exists [EvEmbeddings t]; split; [reflexivity | repeat constructor]|].
    destruct (IH (S attempts) ltac:(lia)
                (tr ++ [EvEmbeddings t; EvSleep (2 * Z.of_nat (S attempts))]))
      as (evs & E' & Hq).
    exists ([EvEmbeddings t; EvSleep (2 * Z.of_nat (S attempts))] ++ evs).
    rewrite E', <- app_assoc. split; [reflexivity|].
    apply Forall_app. split; [repeat constructor | assumption].
Qed.

Lemma embed_each_quiet E texts : forall out, quiet (embed_each E texts out).
Proof.
  induction texts as [|t rest IH]; intros out; simpl.
  - apply quiet_ret.
  - apply quiet_bind; [apply (embed_one_quiet E t 3); lia | intros v; apply IH].
Qed.

Lemma short_ids_quiet {A} E (parts : list A) : quiet (short_ids E parts).
Proof.
  induction parts as [|x rest IH]; simpl; [apply quiet_ret|].
  apply quiet_bind; [apply quiet_perform; reflexivity|]. intros u.
  apply quiet_bind; [assumption|]. intros us. apply quiet_ret.
Qed.

(** [short_ids] cannot raise and gives one id per part. *)
Lemma short_ids_ok {A} E (parts : list A) tr :
  exists ids tr', short_ids E parts tr = (Ok ids, tr') /\
                  length ids = length parts.
Proof.
  revert tr. induction parts as [|x rest IH]; intros tr; simpl.
  - exists [], tr. split; reflexivity.
  - unfold bind at 1. unfold perform at 1.
    destruct (IH (tr ++ [EvUuid])) as (ids & tr' & E' & Hlen).
    unfold bind at 1. rewrite E'.
    eexists _, _. split; [reflexivity|]. simpl. congruence.
Qed.

End IngestProps.
Import IngestProps.

Module BatchProps.

(** One file of a batch: whatever happens, the iteration ends normally
    with one more status line, the one that [explains] gives the file, and
    without a flush. *)
Lemma ingest_file_outcome E p name files total tr :
  exists st evs,
    ingest_file E p name files total tr =
      (Ok (files ++ [status_line name st], total + status_count st),
       tr ++ evs)
    /\ no_flush evs /\ explains E tr p st evs.
Proof.
  unfold ingest_file, try_except, bind, lift.
  destruct (load_document p None) as [raw|e] eqn:Hload.
  2: { exists (Failed e), []. rewrite app_nil_r, Z.add_0_r.
       repeat split; [constructor | apply extraction_raised; assumption]. }
  pose proof (nothing_to_insert E tr p raw Hload) as Hnone.
  pose proof (embedding_raised E tr p raw) as Hembed.
  pose proof (insert_raised E tr p raw) as Hrefused.
  pose proof (chunks_inserted E tr p raw) as Hdone.
  destruct (chunk_text raw default_chunk_size default_overlap None)
    as [|c parts'].
  { exists NoText, []. rewrite app_nil_r, Z.add_0_r.
    repeat split; [constructor | apply Hnone; reflexivity]. }
  destruct (embed_each_quiet E (c :: parts') [] tr) as (evs1 & E1 & Q1).
  unfold embed_texts in *.
  destruct (embed_each E (c :: parts') [] tr) as [[vectors|e] tr1];
    simpl in E1; subst tr1.
  2: { exists (Failed e), evs1. rewrite Z.add_0_r.
       repeat split; [assumption|].
       apply Hembed; [assumption | discriminate | reflexivity]. }
  destruct (short_ids_ok E (c :: parts') (tr ++ evs1))
    as (ids & tr2 & E2 & Hlen).
  destruct (short_ids_quiet E (c :: parts') (tr ++ evs1))
    as (evs2 & E2' & Q2).
  rewrite E2 in E2'. simpl in E2'. subst tr2. rewrite E2.
  unfold insert, perform.
  destruct (collection_insert E ((tr ++ evs1) ++ evs2) ids vectors
              (c :: parts')) as [e|] eqn:Hinsert.
  - exists (Failed e), (evs1 ++ evs2 ++ [EvInsert ids vectors (c :: parts')]).
    rewrite Z.add_0_r, !app_assoc. repeat split.
    + repeat (apply Forall_app; split); try assumption. repeat constructor.
    + rewrite <- !app_assoc.
      apply Hrefused; [assumption | discriminate | reflexivity | exact E2
                      | exact Hinsert].
  - exists (Inserted (Z.of_nat (length (c :: parts')))),
      (evs1 ++ evs2 ++ [EvInsert ids vectors (c :: parts')]).
    rewrite !app_assoc, Hlen. repeat split.
    + repeat (apply Forall_app; split); try assumption. repeat constructor.
    + rewrite <- !app_assoc.
      apply Hdone; [assumption | discriminate | reflexivity | exact E2
                   | exact Hinsert].
Qed.

(** A file has one outcome. *)
Lemma explains_functional E tr p st evs st' evs' :
  explains E tr p st evs -> explains E tr p st' evs' ->
  st = st' /\ evs = evs'.
Proof.
  intros H H'.
  destruct H as [e L|raw L C|raw e evs L C B|raw vs ids e evs us L C B U I
                |raw vs ids evs us L C B U I];
    destruct H' as [e' L'|raw' L' C'|raw' e' evs' L' C' B'
                   |raw' vs' ids' e' evs' us' L' C' B' U' I'
                   |raw' vs' ids' evs' us' L' C' B' U' I'];
    rewrite L in L'; try discriminate L';
    injection L' as Hraw; subst; try (split; reflexivity);
    try contradiction; try congruence;
    rewrite B in B'; try discriminate B'; injection B' as He Hevs;
    apply app_inv_head in Hevs; subst;
    try (split; reflexivity);
    rewrite U in U'; injection U' as Hids Hus;
    apply app_inv_head in Hus; subst;
    rewrite I in I'; try discriminate I';
    try (injection I' as He; subst); split; reflexivity.
Qed.

Lemma explains_all_functional E docs :
  forall tr sts evs sts' evs',
    explains_all E tr docs sts evs -> explains_all E tr docs sts' evs' ->
    sts = sts' /\ evs = evs'.
Proof.
  induction docs as [|p rest IH]; intros tr sts evs sts' evs' H H';
    inversion H; subst; inversion H'; subst; [split; reflexivity|].
  match goal with
  | [ A : explains E tr p ?st ?ea, B : explains E tr p ?st' ?eb |- _ ] =>
      destruct (explains_functional _ _ _ _ _ _ _ A B) as [-> ->]
  end.
  match goal with
  | [ A : explains_all E _ rest ?ss ?ea,
      B : explains_all E _ rest ?ss' ?eb |- _ ] =>
      destruct (IH _ _ _ _ _ A B) as [-> ->]
  end.
  split; reflexivity.
Qed.

Lemma status_lines_cons name names st sts :
  status_lines (name :: names) (st :: sts) =
  status_line name st :: status_lines names sts.
Proof. reflexivity. Qed.

Lemma counted_cons st sts : counted (st :: sts) = status_count st + counted sts.
Proof. reflexivity. Qed.


Lemma ingest_files_loop_outcome E uploads dests :
  Forall2 (fun f d => saved f = Ok d) uploads dests ->
  forall files total tr,
  exists sts evs,
    ingest_files_loop E uploads files total tr =
      (Ok (files ++ status_lines (map filename uploads) sts,
           total + counted sts),
       tr ++ evs)
    /\ no_flush evs
    /\ explains_all E tr dests sts evs.
Proof.
  induction 1 as [|f d uploads dests Hsaved _ IH]; intros files total tr.
  - exists [], []. simpl. unfold ret, status_lines, counted. simpl.
    rewrite !app_nil_r, Z.add_0_r. repeat split; constructor.
  - simpl. unfold bind at 1. unfold lift. rewrite Hsaved. unfold bind.
    destruct (ingest_file_outcome E d (filename f) files total tr)
      as (st & evs1 & -> & Q1 & X1).
    destruct (IH (files ++ [status_line (filename f) st])
                (total + status_count st) (tr ++ evs1))
      as (sts & evs2 & E2 & Q2 & X2).
    simpl. rewrite E2.
    exists (st :: sts), (evs1 ++ evs2).
    rewrite status_lines_cons, counted_cons, <- !app_assoc, Z.add_assoc.
    repeat split; [apply Forall_app; split; assumption|].
    constructor; assumption.
Qed.

End BatchProps.
Import BatchProps.



(** Three uploads of which the second cannot be read: all three are
    listed, the second with its error, the other two are counted, and the
    one flush comes last. *)
Example ingest_files_three_uploads :
  ingest_files (world (flaky_embeddings 0) (flaky_chat 0 (says [])) [])
    [uploaded first_file; uploaded second_file; uploaded third_file] [] =
  (Ok {| inserted := 2;
         files := [py "a.txt";
                   py "b.txt (ERROR: [Errno 13] Permission denied)";
                   py "c.md"] |},
   [EvEmbeddings (py "uno" ++ nl :: py "dos"); EvUuid;
    EvInsert [py "00000001"] [[7 # 1]] [py "uno" ++ nl :: py "dos"];
    EvEmbeddings (py "cuatro"); EvUuid;
    EvInsert [py "00000004"] [[6 # 1]] [py "cuatro"];
    EvFlush]).
Proof. vm_compute. reflexivity. Qed.

(** C10: [ingest_one] on an existing file whose text gives no chunk
    returns the report with [inserted = 0] and the name with the no-text
    marker, and performs no event: no embedding call, no insert, no
    flush. *)
Theorem ingest_one_no_text E p max_pages max_chunks tr raw :
  doc_exists p = true ->
  load_document p (if str_eqb (doc_suffix p) (py ".pdf")
                   then max_pages else None) = Ok raw ->
  chunk_text raw default_chunk_size default_overlap max_chunks = [] ->
  ingest_one E p max_pages max_chunks tr =
    (Ok {| inserted := 0; files := [doc_name p ++ py " (sin texto)"] |}, tr).
Proof.
  intros Hex Hload Hparts. unfold ingest_one. rewrite Hex.
  cbn [negb]. unfold try_except, bind, lift. rewrite Hload, Hparts.
  reflexivity.
Qed.

Lemma ingest_one_no_text_witness :
  ingest_one (world (flaky_embeddings 0) (flaky_chat 0 (says [])) [])
    blank_file default_max_pages default_max_chunks [] =
  (Ok {| inserted := 0; files := [py "blank.txt (sin texto)"] |}, []).
Proof.
  apply (ingest_one_no_text _ blank_file _ _ [] (py "   " ++ nl :: py " "));
    reflexivity.
Defined.

(* ===================================================================== *)
(** ** More about strings *)
(* ===================================================================== *)

Module JoinFacts.

Lemma join_cons2 (sep p q : str) (ps : list str) :
  join sep (p :: q :: ps) = p ++ sep ++ join sep (q :: ps).
Proof. reflexivity. Qed.

Lemma join_snoc (sep : str) (l : list str) (x : str) :
  l <> [] -> join sep (l ++ [x]) = join sep l ++ sep ++ x.
Proof.
  induction l as [|a l IH]; [congruence|]. intros _.
  destruct l as [|b l]; [reflexivity|].
  specialize (IH ltac:(discriminate)). cbn [app] in *.
  rewrite (join_cons2 sep a b (l ++ [x])), (join_cons2 sep a b l), IH.
  rewrite <- !app_assoc. reflexivity.
Qed.

Lemma join_last_app (sep : str) (l : list str) (x y : str) :
  join sep (l ++ [x ++ y]) = join sep (l ++ [x]) ++ y.
Proof.
  destruct l as [|a l]; [reflexivity|].
  rewrite !join_snoc by discriminate. rewrite <- !app_assoc. reflexivity.
Qed.

Lemma join_app_length (sep : str) (l l' : list str) :
  (length (join sep l) <= length (join sep (l ++ l')))%nat.
Proof.
  induction l as [|a l IH]; [simpl; lia|].
  destruct l as [|b l].
  - destruct l' as [|c l']; [simpl; lia|].
    change ([a] ++ c :: l') with (a :: c :: l').
    rewrite join_cons2, length_app. simpl. lia.
  - cbn [app] in *.
    rewrite (join_cons2 sep a b (l ++ l')), (join_cons2 sep a b l).
    rewrite !length_app. lia.
Qed.

Lemma split_nl_cons (s : str) : exists l ls, split_nl s = l :: ls.
Proof.
  induction s as [|c s (l & ls & E)]; simpl; [eauto|].
  destruct (c =? nl)%N; [eauto|]. rewrite E. eauto.
Qed.

Lemma split_nl_one_line (a : str) : one_line a -> split_nl a = [a].
Proof.
  induction a as [|c a IH]; intros H; [reflexivity|]. simpl.
  destruct (N.eqb_spec c nl) as [->|_]; [exfalso; apply H; left; reflexivity|].
  rewrite IH; [reflexivity|]. intros Hin. apply H. right. assumption.
Qed.

Lemma split_nl_app (a b : str) :
  one_line a -> split_nl (a ++ nl :: b) = a :: split_nl b.
Proof.
  induction a as [|c a IH]; intros H; [reflexivity|]. simpl.
  destruct (N.eqb_spec c nl) as [->|_]; [exfalso; apply H; left; reflexivity|].
  rewrite IH; [reflexivity|]. intros Hin. apply H. right. assumption.
Qed.

Lemma split_nl_pieces (s : str) : Forall one_line (split_nl s).
Proof.
  induction s as [|c s IH]; simpl.
  - constructor; [intros [] | constructor].
  - destruct (N.eqb_spec c nl) as [->|Hc].
    + constructor; [intros [] | assumption].
    + destruct (split_nl s) as [|l ls];
        [repeat constructor; intros [H|[]]; congruence|].
      inversion IH as [|? ? Hl Hls]; subst. constructor; [|assumption].
      intros [H|H]; [congruence | exact (Hl H)].
Qed.

Lemma split_nl_join (ps : list str) :
  ps <> [] -> Forall one_line ps -> split_nl (join [nl] ps) = ps.
Proof.
  induction ps as [|p ps IH]; [congruence|]. intros _ H.
  inversion H as [|? ? Hp Hps]; subst.
  destruct ps as [|q ps]; [apply split_nl_one_line; assumption|].
  rewrite join_cons2.
  change ([nl] ++ join [nl] (q :: ps)) with (nl :: join [nl] (q :: ps)).
  rewrite split_nl_app by assumption.
  rewrite IH; [reflexivity | discriminate | assumption].
Qed.

Lemma strip_sublist (s : str) (c : char) : In c (strip s) -> In c s.
Proof.
  intros H. unfold strip in H.
  destruct (rstrip_decompose (lstrip s)) as (w & Hw).
  destruct (lstrip_decompose s) as (v & Hv & _).
  rewrite Hv, Hw. apply in_or_app. right. apply in_or_app. left. assumption.
Qed.

Lemma paragraphs_one_line (text para : str) :
  In para (paragraphs text) -> one_line para.
Proof.
  unfold paragraphs. rewrite in_map_iff. intros (t & <- & Hin).
  apply filter_In in Hin. destruct Hin as [Hin _].
  pose proof (split_nl_pieces text) as Hall. rewrite Forall_forall in Hall.
  intros Hnl. apply (Hall t Hin). apply strip_sublist. assumption.
Qed.

(** Paragraphs that are already clean come back as they are. *)
Lemma paragraphs_join (ps : list str) :
  Forall (fun p => proper p /\ one_line p) ps ->
  paragraphs (join [nl] ps) = ps.
Proof.
  intros H. destruct ps as [|p ps]; [reflexivity|].
  unfold paragraphs. rewrite split_nl_join; [|discriminate|].
  2: { eapply Forall_impl; [|exact H]. intros a [_ Ha]. exact Ha. }
  induction H as [|a l [[Hne Htr] _] _ IH]; [reflexivity|].
  cbn [filter]. rewrite (trimmed_strip a Htr).
  destruct a as [|c a]; [congruence|]. cbn [truthy map].
  rewrite (trimmed_strip _ Htr), IH. reflexivity.
Qed.

End JoinFacts.
Import JoinFacts.

(* ===================================================================== *)
(** ** A rule for the loop of the chunker *)
(* ===================================================================== *)

Module LoopRule.

Section Rule.
Variables (cs ov : Z) (mc : option Z) (all_paras : list str).

(** [Inv done chunks buf]: the state after the paragraphs [done]. *)
Variable Inv : list str -> list str -> str -> Prop.

Hypothesis Inv_fit :
  forall done para rest chunks buf,
    all_paras = done ++ para :: rest -> Inv done chunks buf ->
    len buf + len para + 1 <= cs ->
    Inv (done ++ [para]) chunks (strip (buf ++ nl :: para)).

Hypothesis Inv_flush :
  forall done para rest chunks buf,
    all_paras = done ++ para :: rest -> Inv done chunks buf ->
    cs < len buf + len para + 1 -> buf <> [] ->
    Inv (done ++ [para]) (chunks ++ [buf]) (seed ov buf para).

Hypothesis Inv_skip :
  forall done para rest chunks,
    all_paras = done ++ para :: rest -> Inv done chunks [] ->
    cs < len [] + len para + 1 ->
    Inv (done ++ [para]) chunks (seed ov [] para).

Lemma chunk_loop_rule paras :
  forall done chunks buf,
    all_paras = done ++ paras -> Inv done chunks buf ->
    match chunk_loop cs ov mc paras chunks buf with
    | Returned c =>
        exists done' rest chunks0 buf0,
          c = chunks0 ++ [buf0] /\ buf0 <> [] /\ Inv done' chunks0 buf0 /\
          all_paras = done' ++ rest
    | Exhausted c b => Inv all_paras c b
    end.
Proof.
  induction paras as [|para rest IH]; intros done chunks buf Hall HI.
  - simpl. rewrite app_nil_r in Hall. subst done. assumption.
  - assert (Hall' : all_paras = (done ++ [para]) ++ rest)
      by (rewrite <- app_assoc; exact Hall).
    simpl. destruct (Z.leb_spec (len buf + len para + 1) cs) as [Hfit|Hno].
    + apply (IH _ _ _ Hall'). eapply Inv_fit; eassumption.
    + destruct (truthy buf) eqn:Hb.
      * destruct (reached _ _).
        -- exists done, (para :: rest), chunks, buf.
           repeat split; try assumption. apply truthy_true. assumption.
        -- apply (IH _ _ _ Hall'). eapply Inv_flush; try eassumption.
           apply truthy_true. assumption.
      * apply truthy_false in Hb. subst buf.
        apply (IH _ _ _ Hall'). eapply Inv_skip; eassumption.
Qed.
End Rule.

(** Without a ceiling the loop never returns early. *)
Lemma chunk_loop_unbounded_exhausts cs ov paras :
  forall chunks buf,
    exists c b, chunk_loop cs ov None paras chunks buf = Exhausted c b.
Proof.
  induction paras as [|para rest IH]; intros chunks buf; simpl; [eauto|].
  destruct (_ <=? _); [apply IH|]. destruct (truthy buf); apply IH.
Qed.

(** The seeded buffer ends with the paragraph. *)
Lemma seed_suffix ov buf para :
  proper para -> exists a, seed ov buf para = a ++ para.
Proof.
  intros [Hne Htr]. unfold seed.
  set (tail := if negb (ov =? 0) && (ov <? len buf)
               then slice_from buf (- ov) else []).
  destruct (lstrip tail) as [|c t] eqn:Hl.
  - exists []. unfold strip. rewrite (lstrip_app_none _ _ Hl).
    change (lstrip (nl :: para)) with (lstrip para).
    destruct Htr as [-> ->]. reflexivity.
  - exists (lstrip tail ++ [nl]). rewrite strip_tail_para; try assumption.
    + rewrite <- app_assoc. reflexivity.
    + rewrite Hl. discriminate.
Qed.

(** The seeded buffer is never empty. *)
Lemma seed_proper ov buf para : proper para -> proper (seed ov buf para).
Proof.
  intros Hp. split; [|apply strip_trimmed].
  destruct (seed_suffix ov buf para Hp) as (a & ->).
  destruct Hp as [Hne _]. destruct a; [assumption | discriminate].
Qed.

(** With no overlap the seeded buffer is the paragraph. *)
Lemma seed_zero buf para : proper para -> seed 0 buf para = para.
Proof. intros [_ Htr]. apply strip_nl_para. assumption. Qed.

Lemma seed_empty ov para : proper para -> seed ov [] para = para.
Proof.
  intros [_ Htr]. unfold seed.
  replace (if negb (ov =? 0) && (ov <? len [])
           then slice_from [] (- ov) else [])
    with (@nil char).
  - cbn [app]. apply strip_nl_para. assumption.
  - destruct (negb (ov =? 0) && (ov <? len [])); [|reflexivity].
    unfold slice_from. rewrite skipn_nil. reflexivity.
Qed.

(** Appending a paragraph to the buffer, whether it was empty or not. *)
Lemma packed_proper buf para :
  trimmed buf -> proper para -> proper (strip (buf ++ nl :: para)).
Proof.
  intros Hb [Hne Htr]. split; [|apply strip_trimmed].
  destruct buf as [|c buf].
  - cbn [app]. rewrite strip_nl_para; assumption.
  - rewrite strip_buf_para; try assumption; discriminate.
Qed.

End LoopRule.
Import LoopRule.

(* ===================================================================== *)
(** ** More about the chunker *)
(* ===================================================================== *)

Module ChunkerMore.

Lemma paragraphs_proper text p : In p (paragraphs text) -> proper p.
Proof.
  intros H. destruct (paragraphs_trimmed text p H). split; assumption.
Qed.

Lemma in_middle {A} (l1 l2 : list A) (x : A) : In x (l1 ++ x :: l2).
Proof. apply in_or_app. right. left. reflexivity. Qed.

Lemma infix_nil (p : str) : infix p [] -> p = [].
Proof.
  intros (a & b & H). symmetry in H.
  apply app_eq_nil in H. destruct H as [_ H].
  apply app_eq_nil in H. tauto.
Qed.

Lemma infix_of_nil (c : str) : infix [] c.
Proof. exists [], c. reflexivity. Qed.

Lemma packed_suffix buf para :
  trimmed buf -> proper para -> exists a, strip (buf ++ nl :: para) = a ++ para.
Proof.
  intros Hb [Hne Htr]. destruct buf as [|c buf].
  - exists []. cbn [app]. apply strip_nl_para. assumption.
  - exists ((c :: buf) ++ [nl]).
    rewrite strip_buf_para by (assumption || discriminate).
    rewrite <- app_assoc. reflexivity.
Qed.

Lemma infix_packed p buf para :
  trimmed buf -> proper para -> infix p buf ->
  infix p (strip (buf ++ nl :: para)).
Proof.
  intros Hb [Hne Htr] Hin. destruct buf as [|c buf].
  - rewrite (infix_nil p Hin). apply infix_of_nil.
  - rewrite strip_buf_para by (assumption || discriminate).
    destruct Hin as (a & b & ->). exists a, (b ++ nl :: para).
    rewrite <- !app_assoc. reflexivity.
Qed.

Lemma finish_unbounded c b :
  finish None (Exhausted c b) = if truthy b then c ++ [b] else c.
Proof. simpl. destruct (truthy b); reflexivity. Qed.

(** *** Every chunk is proper *)

Lemma chunk_loop_proper cs ov mc text :
  match chunk_loop cs ov mc (paragraphs text) [] [] with
  | Returned c => Forall proper c
  | Exhausted c b => Forall proper c /\ trimmed b
  end.
Proof.
  pose proof (chunk_loop_rule cs ov mc (paragraphs text)
                (fun _ chunks buf => Forall proper chunks /\ trimmed buf))
    as Rule.
  cbv beta in Rule.
  assert (H : forall para done rest,
             paragraphs text = done ++ para :: rest -> proper para).
  { intros para done rest E. apply (paragraphs_proper text).
    rewrite E. apply in_middle. }
  specialize (Rule
    ltac:(intros done para rest chunks buf E [Hc Hb] _; split;
          [assumption | apply strip_trimmed])
    ltac:(intros done para rest chunks buf E [Hc Hb] _ Hne; split;
          [apply Forall_app; split; [assumption|];
           constructor; [split; assumption | constructor]
          | apply strip_trimmed])
    ltac:(intros done para rest chunks E [Hc Hb] _; split;
          [assumption | apply strip_trimmed])
    (paragraphs text) [] [] [] eq_refl
    (conj (Forall_nil _) (conj eq_refl eq_refl))).
  destruct (chunk_loop cs ov mc (paragraphs text) [] []) as [c|c b];
    [|assumption].
  destruct Rule as (done' & rest & chunks0 & buf0 & -> & Hne & [Hc Hb] & _).
  apply Forall_app. split; [assumption|].
  constructor; [split; assumption | constructor].
Qed.

Lemma finish_proper cs ov mc text :
  Forall proper (finish mc (chunk_loop cs ov mc (paragraphs text) [] [])).
Proof.
  pose proof (chunk_loop_proper cs ov mc text) as H.
  destruct (chunk_loop cs ov mc (paragraphs text) [] []) as [c|c b];
    simpl; [assumption|].
  destruct H as [Hc Hb].
  destruct (truthy b) eqn:Ht; simpl; [|assumption].
  destruct (below mc c); [|assumption].
  apply Forall_app. split; [assumption|].
  constructor; [|constructor]. split; [|assumption].
  apply truthy_true. assumption.
Qed.

(** *** No more chunks than paragraphs *)

Lemma chunk_loop_count cs ov mc text :
  match chunk_loop cs ov mc (paragraphs text) [] [] with
  | Returned c => (length c <= length (paragraphs text))%nat
  | Exhausted c b => (length c + pending b <= length (paragraphs text))%nat
  end.
Proof.
  pose proof (chunk_loop_rule cs ov mc (paragraphs text)
                (fun done chunks buf =>
                   (length chunks + pending buf <= length done)%nat))
    as Rule.
  cbv beta in Rule.
  assert (Hpend : forall b, (pending b <= 1)%nat)
    by (intros b; unfold pending; destruct (truthy b); lia).
  specialize (Rule
    ltac:(intros done para rest chunks buf E HI _;
          rewrite length_app; cbn [length];
          pose proof (Hpend buf);
          pose proof (Hpend (strip (buf ++ nl :: para))); lia)
    ltac:(intros done para rest chunks buf E HI _ Hne;
          rewrite !length_app; cbn [length];
          pose proof (Hpend (seed ov buf para));
          destruct buf; [congruence | unfold pending in HI; simpl in HI; lia])
    ltac:(intros done para rest chunks E HI _;
          rewrite length_app; cbn [length];
          pose proof (Hpend (seed ov [] para));
          unfold pending in HI; simpl in HI; lia)
    (paragraphs text) [] [] [] eq_refl (Nat.le_refl _)).
  destruct (chunk_loop cs ov mc (paragraphs text) [] []) as [c|c b];
    [|assumption].
  destruct Rule as (done' & rest & chunks0 & buf0 & -> & Hne & HI & E).
  rewrite E, !length_app. simpl.
  destruct buf0; [congruence | unfold pending in HI; simpl in HI; lia].
Qed.

(** *** Without a ceiling *)

Section Unbounded.
Variables (cs ov : Z) (text : str).

Lemma unbounded_exit (Inv : list str -> list str -> str -> Prop) :
  match chunk_loop cs ov None (paragraphs text) [] [] with
  | Returned _ => True
  | Exhausted c b => Inv (paragraphs text) c b
  end ->
  exists c b,
    chunk_text text cs ov None = (if truthy b then c ++ [b] else c) /\
    Inv (paragraphs text) c b.
Proof.
  rewrite chunk_text_finish.
  destruct (chunk_loop_unbounded_exhausts cs ov (paragraphs text) [] [])
    as (c & b & ->).
  intros H. exists c, b. split; [apply finish_unbounded | assumption].
Qed.

Lemma unbounded_rule (Inv : list str -> list str -> str -> Prop) :
  (forall done para rest chunks buf,
     paragraphs text = done ++ para :: rest -> proper para ->
     Inv done chunks buf ->
     len buf + len para + 1 <= cs ->
     Inv (done ++ [para]) chunks (strip (buf ++ nl :: para))) ->
  (forall done para rest chunks buf,
     paragraphs text = done ++ para :: rest -> proper para ->
     Inv done chunks buf ->
     cs < len buf + len para + 1 -> buf <> [] ->
     Inv (done ++ [para]) (chunks ++ [buf]) (seed ov buf para)) ->
  (forall done para rest chunks,
     paragraphs text = done ++ para :: rest -> proper para ->
     Inv done chunks [] ->
     cs < len [] + len para + 1 ->
     Inv (done ++ [para]) chunks (seed ov [] para)) ->
  Inv [] [] [] ->
  exists c b,
    chunk_text text cs ov None = (if truthy b then c ++ [b] else c) /\
    Inv (paragraphs text) c b.
Proof.
  intros Hfit Hflush Hskip H0. apply unbounded_exit.
  assert (H : forall para done rest,
             paragraphs text = done ++ para :: rest -> proper para).
  { intros para done rest E. apply (paragraphs_proper text).
    rewrite E. apply in_middle. }
  pose proof (chunk_loop_rule cs ov None (paragraphs text) Inv
    ltac:(intros done para rest chunks buf E; apply (Hfit _ _ _ _ _ E);
          eapply H; eassumption)
    ltac:(intros done para rest chunks buf E; apply (Hflush _ _ _ _ _ E);
          eapply H; eassumption)
    ltac:(intros done para rest chunks E; apply (Hskip _ _ _ _ E);
          eapply H; eassumption)
    (paragraphs text) [] [] [] eq_refl H0) as Rule.
  destruct (chunk_loop cs ov None (paragraphs text) [] []); [exact I|].
  assumption.
Qed.
End Unbounded.

End ChunkerMore.
Import ChunkerMore.

(* ===================================================================== *)
(** ** Further properties: the chunker *)
(* ===================================================================== *)

(** X1: every chunk [chunk_text] returns is non-empty and has no white
    space at either end, whatever the parameters. *)
Theorem chunk_text_chunks_proper text cs ov mc :
  Forall proper (chunk_text text cs ov mc).
Proof.
  rewrite chunk_text_finish. apply Forall_forall. intros c Hc.
  pose proof (finish_proper cs ov mc text) as H.
  rewrite Forall_forall in H. apply H. assumption.
Qed.

(** X2: [chunk_text] never returns more chunks than the text has non-blank
    lines, whatever the parameters. *)
Theorem chunk_text_count text cs ov mc :
  (length (chunk_text text cs ov mc) <= length (paragraphs text))%nat.
Proof.
  rewrite chunk_text_finish.
  pose proof (chunk_loop_count cs ov mc text) as H.
  destruct (chunk_loop cs ov mc (paragraphs text) [] []) as [c|c b];
    simpl; [assumption|].
  unfold pending in H.
  destruct (truthy b); simpl; [|lia].
  destruct (below mc c); [|lia].
  rewrite length_app. simpl. lia.
Qed.

(** X3: a text without a non-blank line gives no chunk, whatever the
    ceiling; without a ceiling that is the only text that gives none. *)
Theorem chunk_text_empty_iff text cs ov :
  (forall mc, paragraphs text = [] -> chunk_text text cs ov mc = []) /\
  (chunk_text text cs ov None = [] <-> paragraphs text = []) /\
  (forall mc, chunk_text [] cs ov mc = []).
Proof.
  assert (H0 : forall mc, paragraphs text = [] ->
                          chunk_text text cs ov mc = []).
  { intros mc E. rewrite chunk_text_finish, E. reflexivity. }
  split; [exact H0|]. split; [|reflexivity].
  split; [|apply H0].
  intros Hnil.
  destruct (paragraphs text) as [|p ps] eqn:Hps; [reflexivity|]. exfalso.
  destruct (unbounded_rule cs ov text
              (fun done chunks buf =>
                 trimmed buf /\ (done <> [] -> buf <> [])))
    as (c & b & E & Hb & HI).
  - intros done para rest chunks buf _ Hp [Hb _] _.
    split; [apply strip_trimmed|]. intros _.
    apply (packed_proper buf para); assumption.
  - intros done para rest chunks buf _ Hp _ _ _.
    split; [apply strip_trimmed|]. intros _.
    apply (seed_proper ov buf para). assumption.
  - intros done para rest chunks _ Hp _ _.
    split; [apply strip_trimmed|]. intros _.
    apply (seed_proper ov [] para). assumption.
  - split; [split; reflexivity | congruence].
  - rewrite Hnil in E. rewrite Hps in HI.
    destruct b as [|x b]; [apply HI; [discriminate | reflexivity]|].
    simpl in E. destruct c; discriminate.
Qed.

Lemma chunk_text_empty_iff_witness :
  chunk_text (py "   " ++ nl :: py " ") 1200 200 (Some 5) = [].
Proof.
  destruct (chunk_text_empty_iff (py "   " ++ nl :: py " ") 1200 200)
    as [H _].
  apply H. reflexivity.
Defined.

(** X4: with [overlap = 0] and no ceiling nothing is lost and nothing is
    repeated: the chunks joined by newlines are the non-blank lines of the
    text, trimmed and joined by newlines.  Chunking that joined text again
    gives the same chunks. *)
Theorem chunk_text_rejoin text cs :
  join [nl] (chunk_text text cs 0 None) = join [nl] (paragraphs text) /\
  chunk_text (join [nl] (chunk_text text cs 0 None)) cs 0 None =
    chunk_text text cs 0 None.
Proof.
  assert (Hjoin : join [nl] (chunk_text text cs 0 None) =
                  join [nl] (paragraphs text)).
  { destruct (unbounded_rule cs 0 text
                (fun done chunks buf =>
                   trimmed buf /\
                   (buf = [] -> chunks = [] /\ done = []) /\
                   (buf <> [] ->
                    join [nl] (chunks ++ [buf]) = join [nl] done /\
                    done <> [])))
      as (c & b & E & Hb & Hnil & Hsome).
    - intros done para rest chunks buf _ Hp (Hb & Hnil & Hsome) _.
      pose proof (packed_proper buf para Hb Hp) as [Hne _].
      split; [apply strip_trimmed|]. split; [tauto|]. intros _.
      split; [|intros Hd; destruct done; discriminate].
      destruct Hp as [Hpne Hpt]. destruct buf as [|x buf].
      + destruct (Hnil eq_refl) as [-> ->]. cbn [app].
        rewrite strip_nl_para by assumption. reflexivity.
      + destruct (Hsome ltac:(discriminate)) as [Hj Hd].
        rewrite strip_buf_para by (assumption || discriminate).
        rewrite join_last_app, Hj, join_snoc by assumption. reflexivity.
    - intros done para rest chunks buf _ Hp (Hb & Hnil & Hsome) _ Hne.
      rewrite seed_zero by assumption.
      destruct Hp as [Hpne Hpt]. split; [split; apply Hpt|].
      split; [tauto|]. intros _.
      split; [|intros Hd; destruct done; discriminate].
      destruct (Hsome Hne) as [Hj Hd].
      rewrite join_snoc by (destruct chunks; discriminate).
      rewrite Hj, join_snoc by assumption. reflexivity.
    - intros done para rest chunks _ Hp (Hb & Hnil & Hsome) _.
      rewrite seed_zero by assumption.
      destruct Hp as [Hpne Hpt]. split; [split; apply Hpt|].
      split; [tauto|]. intros _.
      split; [|intros Hd; destruct done; discriminate].
      destruct (Hnil eq_refl) as [-> ->]. reflexivity.
    - split; [split; reflexivity|]. split; [tauto | congruence].
    - rewrite E. destruct b as [|x b].
      + destruct (Hnil eq_refl) as [-> ->]. reflexivity.
      + apply Hsome. discriminate. }
  split; [exact Hjoin|].
  rewrite (chunk_text_finish (join [nl] (chunk_text text cs 0 None))).
  rewrite Hjoin, paragraphs_join; [reflexivity|].
  apply Forall_forall. intros p Hp.
  split; [apply (paragraphs_proper text) | apply (paragraphs_one_line text)];
    assumption.
Qed.

(** X5: without a ceiling no paragraph is lost, whatever the overlap: every
    non-blank line of the text, trimmed, occurs whole inside some chunk. *)
Theorem chunk_text_keeps_paragraphs text cs ov para :
  In para (paragraphs text) ->
  exists c, In c (chunk_text text cs ov None) /\ infix para c.
Proof.
  intros Hin.
  destruct (unbounded_rule cs ov text
              (fun done chunks buf =>
                 trimmed buf /\
                 forall p, In p done ->
                           exists c, In c (chunks ++ [buf]) /\ infix p c))
    as (c & b & E & Hb & HI).
  - intros done p rest chunks buf _ Hp [Hb HI] _.
    split; [apply strip_trimmed|]. intros q Hq.
    apply in_app_or in Hq. destruct Hq as [Hq | [<- | []]].
    + destruct (HI q Hq) as (x & Hx & Hinf).
      apply in_app_or in Hx. destruct Hx as [Hx | [<- | []]].
      * exists x. split; [apply in_or_app; left; assumption | assumption].
      * exists (strip (buf ++ nl :: p)). split; [apply in_middle|].
        apply infix_packed; assumption.
    + exists (strip (buf ++ nl :: p)). split; [apply in_middle|].
      destruct (packed_suffix buf p Hb Hp) as (a & ->).
      exists a, []. rewrite app_nil_r. reflexivity.
  - intros done p rest chunks buf _ Hp [Hb HI] _ Hne.
    split; [apply strip_trimmed|]. intros q Hq.
    apply in_app_or in Hq. destruct Hq as [Hq | [<- | []]].
    + destruct (HI q Hq) as (x & Hx & Hinf).
      exists x. split; [apply in_or_app; left; assumption | assumption].
    + exists (seed ov buf p). split; [apply in_middle|].
      destruct (seed_suffix ov buf p Hp) as (a & ->).
      exists a, []. rewrite app_nil_r. reflexivity.
  - intros done p rest chunks _ Hp [Hb HI] _.
    split; [apply strip_trimmed|]. intros q Hq.
    apply in_app_or in Hq. destruct Hq as [Hq | [<- | []]].
    + destruct (HI q Hq) as (x & Hx & Hinf).
      apply in_app_or in Hx. destruct Hx as [Hx | [<- | []]].
      * exists x. split; [apply in_or_app; left; assumption | assumption].
      * exists (seed ov [] p). split; [apply in_middle|].
        rewrite (infix_nil q Hinf). apply infix_of_nil.
    + exists (seed ov [] p). split; [apply in_middle|].
      destruct (seed_suffix ov [] p Hp) as (a & ->).
      exists a, []. rewrite app_nil_r. reflexivity.
  - split; [split; reflexivity | intros p []].
  - destruct (HI para Hin) as (x & Hx & Hinf).
    rewrite E. destruct b as [|y b]; [|exists x; split; assumption].
    apply in_app_or in Hx. destruct Hx as [Hx | [<- | []]].
    + exists x. split; assumption.
    + exfalso. destruct (paragraphs_proper text para Hin) as [Hne _].
      apply Hne. apply infix_nil. assumption.
Qed.

Lemma chunk_text_keeps_paragraphs_witness :
  exists c,
    In c (chunk_text trimmed_tail_text 6 3 None) /\ infix (py "xyz") c.
Proof.
  apply chunk_text_keeps_paragraphs. vm_compute. right. left. reflexivity.
Defined.

(** X6: a text whose non-blank lines, trimmed and joined by newlines, fit in
    [chunk_size] comes back as that one chunk, without a ceiling or with a
    ceiling of at least one. *)
Theorem chunk_text_single_chunk text cs ov :
  paragraphs text <> [] ->
  len (join [nl] (paragraphs text)) <= cs ->
  chunk_text text cs ov None = [join [nl] (paragraphs text)] /\
  (forall n, 1 <= n ->
             chunk_text text cs ov (Some n) = [join [nl] (paragraphs text)]).
Proof.
  intros Hne Hfits.
  assert (Hone : chunk_text text cs ov None = [join [nl] (paragraphs text)]).
  { destruct (unbounded_rule cs ov text
                (fun done chunks buf =>
                   chunks = [] /\ buf = join [nl] done /\ trimmed buf /\
                   (done <> [] -> buf <> [])))
      as (c & b & E & -> & -> & Hb & Hsome).
    - intros done para rest chunks buf _ Hp (-> & -> & Hb & Hsome) _.
      pose proof (packed_proper _ para Hb Hp) as [Hpk _].
      split; [reflexivity|]. split; [|split; [apply strip_trimmed | tauto]].
      destruct done as [|d done].
      + cbn [app join]. apply strip_nl_para. apply Hp.
      + rewrite strip_buf_para; try apply Hp; try assumption;
          [|apply Hsome; discriminate].
        rewrite join_snoc by discriminate. reflexivity.
    - intros done para rest chunks buf Hall Hp (-> & -> & Hb & Hsome) Hno Hnb.
      exfalso.
      assert (Hd : done <> []) by (intros ->; apply Hnb; reflexivity).
      pose proof (join_app_length [nl] (done ++ [para]) rest) as Hlen.
      rewrite <- app_assoc in Hlen. cbn [app] in Hlen. rewrite <- Hall in Hlen.
      rewrite join_snoc in Hlen by assumption.
      rewrite !length_app in Hlen. cbn [length] in Hlen.
      unfold len in *. lia.
    - intros done para rest chunks _ Hp (-> & Hd & Hb & Hsome) _.
      split; [reflexivity|].
      assert (done = []) as ->.
      { destruct done; [reflexivity|]. exfalso. apply Hsome;
          [discriminate | reflexivity]. }
      rewrite seed_empty by assumption.
      split; [reflexivity|]. split; [split; apply Hp | intros _; apply Hp].
    - repeat split; congruence.
    - rewrite E.
      destruct (join [nl] (paragraphs text)) as [|x j] eqn:Hj;
        [exfalso; apply Hsome; [assumption | reflexivity] | reflexivity]. }
  split; [exact Hone|]. intros n Hn.
  rewrite chunk_text_finish, chunk_loop_ceiling by (simpl; lia).
  rewrite <- chunk_text_finish, Hone.
  destruct (Z.to_nat n) eqn:Hz; [lia|].
  cbn [firstn]. rewrite firstn_nil. reflexivity.
Qed.

Lemma chunk_text_single_chunk_witness :
  chunk_text (py "  uno " ++ nl :: nl :: py "dos") 1200 200 None =
  [py "uno" ++ nl :: py "dos"].
Proof.
  destruct (chunk_text_single_chunk (py "  uno " ++ nl :: nl :: py "dos")
              1200 200) as [H _].
  - vm_compute. discriminate.
  - vm_compute. discriminate.
  - rewrite H. reflexivity.
Defined.

(** X7: the paragraphs of a text are non-empty, have no white space at
    either end and hold no line break, and splitting their join by
    newlines gives them back. *)
Theorem paragraphs_clean text :
  Forall (fun p => proper p /\ one_line p) (paragraphs text) /\
  paragraphs (join [nl] (paragraphs text)) = paragraphs text.
Proof.
  assert (H : Forall (fun p => proper p /\ one_line p) (paragraphs text)).
  { apply Forall_forall. intros p Hp.
    split; [apply (paragraphs_proper text) | apply (paragraphs_one_line text)];
      assumption. }
  split; [exact H | apply paragraphs_join; exact H].
Qed.

(* ===================================================================== *)
(** ** A negative ceiling *)
(* ===================================================================== *)

Module NegativeCeiling.

Lemma unbounded_more cs ov paras :
  Forall proper paras ->
  forall chunks buf,
    buf <> [] -> trimmed buf ->
    exists more,
      finish None (chunk_loop cs ov None paras chunks buf) = chunks ++ more /\
      more <> [].
Proof.
  induction 1 as [|para rest Hp _ IH]; intros chunks buf Hne Htr.
  - exists [buf]. simpl. destruct buf; [congruence|]. simpl.
    split; [reflexivity | discriminate].
  - simpl. destruct (_ <=? _).
    + apply IH; apply (packed_proper buf para Htr Hp).
    + destruct buf as [|x buf]; [congruence|]. cbn [truthy].
      destruct (IH (chunks ++ [x :: buf]) (seed ov (x :: buf) para))
        as (more & E & Hm); try apply (seed_proper ov _ para Hp).
      exists ((x :: buf) :: more). split; [|discriminate].
      etransitivity; [exact E|]. rewrite <- app_assoc. reflexivity.
Qed.

Lemma chunk_loop_negative cs ov n paras :
  n < 0 -> Forall proper paras ->
  forall buf,
    trimmed buf ->
    finish (Some n) (chunk_loop cs ov (Some n) paras [] buf) =
    match finish None (chunk_loop cs ov None paras [] buf) with
    | a :: _ :: _ => [a]
    | _ => []
    end.
Proof.
  intros Hn. induction 1 as [|para rest Hp Hrest IH]; intros buf Htr.
  - simpl. destruct (Z.eqb_spec n 0); [lia|].
    destruct (Z.ltb_spec 0 n); [lia|].
    destruct (truthy buf); reflexivity.
  - simpl. destruct (_ <=? _); [apply IH; apply strip_trimmed|].
    destruct buf as [|x buf]; cbn [truthy];
      [apply IH; apply strip_trimmed|].
    destruct (Z.eqb_spec n 0); [lia|].
    destruct (Z.leb_spec n 1); [|lia].
    cbn [negb andb finish].
    destruct (unbounded_more cs ov rest Hrest ([] ++ [x :: buf])
                (seed ov (x :: buf) para))
      as (more & E & Hm); try apply (seed_proper ov _ para Hp).
    etransitivity; [|apply (f_equal (fun l => match l with
                                              | a :: _ :: _ => [a]
                                              | _ => []
                                              end)); symmetry; exact E].
    destruct more; [congruence | reflexivity].
Qed.

End NegativeCeiling.
Import NegativeCeiling.

(** X8: a negative [max_chunks] is a ceiling that is always reached:
    [chunk_text] then returns the first chunk alone when the text gives two
    chunks or more without a ceiling, and no chunk at all when it gives
    one; so at most one chunk comes back. *)
Theorem chunk_text_negative_ceiling text cs ov n :
  n < 0 ->
  chunk_text text cs ov (Some n) =
    match chunk_text text cs ov None with
    | a :: _ :: _ => [a]
    | _ => []
    end /\
  (length (chunk_text text cs ov (Some n)) <= 1)%nat.
Proof.
  intros Hn.
  assert (E : chunk_text text cs ov (Some n) =
              match chunk_text text cs ov None with
              | a :: _ :: _ => [a]
              | _ => []
              end).
  { rewrite !chunk_text_finish. apply chunk_loop_negative;
      [assumption | | split; reflexivity].
    apply Forall_forall. apply paragraphs_proper. }
  split; [exact E|]. rewrite E.
  destruct (chunk_text text cs ov None) as [|a [|b l]]; simpl; lia.
Qed.

Lemma chunk_text_negative_ceiling_witness :
  chunk_text (py "a") 1200 200 (Some (-1)) = [] /\
  chunk_text (py "a" ++ nl :: py "b" ++ nl :: py "c") 1 0 (Some (-1)) =
    [py "a"].
Proof.
  split.
  - destruct (chunk_text_negative_ceiling (py "a") 1200 200 (-1)) as [E _];
      [lia|].
    rewrite E. reflexivity.
  - destruct (chunk_text_negative_ceiling
                (py "a" ++ nl :: py "b" ++ nl :: py "c") 1 0 (-1)) as [E _];
      [lia|].
    rewrite E. reflexivity.
Defined.

(* ===================================================================== *)
(** ** Further properties: reading documents *)
(* ===================================================================== *)

Module ExtractorMore.

Lemma str_eqb_eq (a b : str) : str_eqb a b = true <-> a = b.
Proof.
  unfold str_eqb. destruct (list_eq_dec N.eq_dec a b); split;
    congruence || discriminate.
Qed.

Lemma str_eqb_refl (a : str) : str_eqb a a = true.
Proof. apply str_eqb_eq. reflexivity. Qed.

Lemma slice_to_firstn {A} (l : list A) (n : Z) :
  0 <= n -> slice_to l n = firstn (Z.to_nat n) l.
Proof.
  intros H. unfold slice_to. destruct (Z.ltb_spec n 0); [lia|].
  destruct (Z.le_ge_cases n (Z.of_nat (length l))).
  - rewrite Z.min_l by assumption. reflexivity.
  - rewrite Z.min_r by assumption. rewrite Nat2Z.id.
    rewrite !firstn_all2; [reflexivity | lia | lia].
Qed.

Lemma firstn_min {A} (l : list A) (n : Z) :
  firstn (Z.to_nat (Z.min (Z.of_nat (length l)) n)) l = firstn (Z.to_nat n) l.
Proof.
  destruct (Z.le_ge_cases n (Z.of_nat (length l))).
  - rewrite Z.min_r by assumption. reflexivity.
  - rewrite Z.min_l by assumption. rewrite Nat2Z.id.
    rewrite !firstn_all2; [reflexivity | lia | lia].
Qed.

End ExtractorMore.
Import ExtractorMore.

(** X9: [read_pdf] returns the primary or the secondary text as it is, and
    never the shorter of the two it has seen: its result has at least the
    trimmed length of the primary text and, when the fallback ran, of the
    secondary text. *)
Theorem read_pdf_best_of_two p max_pages :
  exists txt,
    read_pdf p max_pages = Ok txt /\
    (txt = primary_text p max_pages \/ read_pdf_pymupdf p max_pages = Ok txt) /\
    len (strip (primary_text p max_pages)) <= len (strip txt) /\
    (len (strip (primary_text p max_pages)) < 20 ->
     forall txt2,
       read_pdf_pymupdf p max_pages = Ok txt2 ->
       len (strip txt2) <= len (strip txt)).
Proof.
  unfold read_pdf. fold (primary_text p max_pages).
  set (txt := primary_text p max_pages).
  destruct (Z.lt_ge_cases (len (strip txt)) 20) as [Hshort|Hlong].
  - rewrite (short_condition txt Hshort).
    destruct (read_pdf_pymupdf p max_pages) as [txt2|e]; cbn [rbind or_keep].
    + destruct (truthy txt2) eqn:Ht; cbn [andb].
      * destruct (Z.ltb_spec (len (strip txt)) (len (strip txt2))).
        -- exists txt2. rewrite truthy_or_self.
           repeat split; [right; reflexivity | lia |].
           intros _ t [= <-]. lia.
        -- exists txt. rewrite truthy_or_self.
           repeat split; [left; reflexivity | lia |].
           intros _ t [= <-]. lia.
      * exists txt. rewrite truthy_or_self.
        repeat split; [left; reflexivity | lia |].
        intros _ t [= <-]. apply truthy_false in Ht. subst txt2.
        unfold len. simpl. lia.
    + exists txt. rewrite truthy_or_self.
      repeat split; [left; reflexivity | lia |]. intros _ t. discriminate.
  - rewrite (long_condition txt Hlong), truthy_or_self.
    exists txt. repeat split; [left; reflexivity | lia | lia].
Qed.

Lemma read_pdf_best_of_two_witness :
  exists txt,
    read_pdf scanned_pdf None = Ok txt /\
    len (strip (py "0123456789012345678901234" ++ nl
                  :: py "012345678901234567890123")) <= len (strip txt).
Proof.
  destruct (read_pdf_best_of_two scanned_pdf None) as (txt & E & _ & _ & H).
  exists txt. split; [exact E|].
  apply H; [vm_compute; reflexivity | reflexivity].
Defined.

(** X10: with a bound [n >= 1] each extractor reads the first [n] pages and
    nothing after them: the result is what it would be for the file cut
    after those pages, also when a later page cannot be read. *)
Theorem extractors_read_first_pages p n :
  1 <= n ->
  (forall pages,
     doc_pypdf p = Ok pages ->
     read_pdf_pypdf p (Some n) =
       read_pdf_pypdf (with_pypdf p (firstn (Z.to_nat n) pages)) None) /\
  (forall pages,
     doc_fitz p = Ok pages ->
     read_pdf_pymupdf p (Some n) =
       read_pdf_pymupdf (with_fitz p (firstn (Z.to_nat n) pages)) None).
Proof.
  intros Hn. split; intros pages Hp.
  - unfold read_pdf_pypdf. rewrite Hp. cbn [rbind with_pypdf doc_pypdf if_set].
    destruct (Z.eqb_spec n 0); [lia|].
    rewrite slice_to_firstn by lia. reflexivity.
  - unfold read_pdf_pymupdf. rewrite Hp.
    cbn [rbind with_fitz doc_fitz if_set].
    destruct (Z.eqb_spec n 0); [lia|].
    rewrite firstn_min, Nat2Z.id.
    rewrite (firstn_all2 (n := length (firstn (Z.to_nat n) pages)))
      by reflexivity.
    reflexivity.
Qed.

Lemma extractors_read_first_pages_witness :
  read_pdf_pypdf torn_pdf (Some 1) = Ok (py "uno") /\
  read_pdf_pymupdf torn_pdf (Some 1) = Ok (py "uno").
Proof.
  destruct (extractors_read_first_pages torn_pdf 1) as [H1 H2]; [lia|].
  split.
  - rewrite (H1 _ eq_refl). reflexivity.
  - rewrite (H2 _ eq_refl). reflexivity.
Defined.

(** X11: a bound of 0 is no bound for either extractor.  A negative bound
    [-k] makes the primary extractor leave out the last [k] pages and the
    secondary one read no page at all. *)
Theorem extractors_falsy_and_negative_bounds p :
  read_pdf_pypdf p (Some 0) = read_pdf_pypdf p None /\
  read_pdf_pymupdf p (Some 0) = read_pdf_pymupdf p None /\
  (forall k pages,
     0 < k ->
     doc_pypdf p = Ok pages ->
     read_pdf_pypdf p (Some (- k)) =
       read_pdf_pypdf
         (with_pypdf p (firstn (length pages - Z.to_nat k) pages)) None) /\
  (forall k pages,
     0 < k ->
     doc_fitz p = Ok pages ->
     read_pdf_pymupdf p (Some (- k)) = Ok []).
Proof.
  split; [reflexivity|]. split; [reflexivity|]. split; intros k pages Hk Hp.
  - unfold read_pdf_pypdf. rewrite Hp. cbn [rbind with_pypdf doc_pypdf if_set].
    destruct (Z.eqb_spec (- k) 0); [lia|].
    unfold slice_to. destruct (Z.ltb_spec (- k) 0); [|lia].
    replace (Z.to_nat (Z.max 0 (- k + Z.of_nat (length pages))))
      with (length pages - Z.to_nat k)%nat by lia.
    reflexivity.
  - unfold read_pdf_pymupdf. rewrite Hp. cbn [rbind if_set].
    destruct (Z.eqb_spec (- k) 0); [lia|].
    replace (Z.to_nat (Z.min (Z.of_nat (length pages)) (- k))) with 0%nat
      by lia.
    reflexivity.
Qed.

Lemma extractors_falsy_and_negative_bounds_witness :
  read_pdf_pypdf torn_pdf (Some (- 1)) = Ok (py "uno") /\
  read_pdf_pymupdf torn_pdf (Some (- 1)) = Ok [].
Proof.
  destruct (extractors_falsy_and_negative_bounds torn_pdf)
    as (_ & _ & H1 & H2).
  split.
  - etransitivity; [exact (H1 1 _ ltac:(lia) eq_refl) | reflexivity].
  - exact (H2 1 _ ltac:(lia) eq_refl).
Defined.

(** X12: [load_document] raises [ValueError], naming the suffix, for every
    suffix other than [.pdf], [.txt] and [.md]; for a [.pdf] it never
    raises; for [.txt] and [.md] it gives what reading the file gives,
    whatever [max_pages]. *)
Theorem load_document_dispatch p max_pages :
  (supported (doc_suffix p) = false ->
   load_document p max_pages =
     Raise (ValueError
              (py "Tipo de archivo no soportado: " ++ doc_suffix p))) /\
  (doc_suffix p = py ".pdf" ->
   exists txt, load_document p max_pages = Ok txt) /\
  (doc_suffix p = py ".txt" \/ doc_suffix p = py ".md" ->
   load_document p max_pages = doc_text p).
Proof.
  unfold load_document, supported. split; [|split].
  - intros H. apply orb_false_iff in H. destruct H as [H Hmd].
    apply orb_false_iff in H. destruct H as [Hpdf Htxt].
    rewrite Hpdf, Htxt, Hmd. reflexivity.
  - intros ->. eexists. reflexivity.
  - intros [-> | ->]; reflexivity.
Qed.

Lemma load_document_dispatch_witness :
  load_document (file_with (py "notes.docx") (py ".docx") (Ok (py "hola")))
    None =
  Raise (ValueError (py "Tipo de archivo no soportado: .docx")).
Proof.
  destruct (load_document_dispatch
              (file_with (py "notes.docx") (py ".docx") (Ok (py "hola")))
              None) as [H _].
  apply H. reflexivity.
Defined.

(* ===================================================================== *)
(** ** More about the retry loops *)
(* ===================================================================== *)

Module RetryMore.

Lemma count_embeddings_app a b :
  count_embeddings (a ++ b) = (count_embeddings a + count_embeddings b)%nat.
Proof.
  unfold count_embeddings. rewrite filter_app, length_app. reflexivity.
Qed.

Lemma count_chats_app a b :
  count_chats (a ++ b) = (count_chats a + count_chats b)%nat.
Proof. unfold count_chats. rewrite filter_app, length_app. reflexivity. Qed.

Lemma count_searches_app a b :
  count_searches (a ++ b) = (count_searches a + count_searches b)%nat.
Proof. unfold count_searches. rewrite filter_app, length_app. reflexivity. Qed.

Lemma slept_app a b : slept (a ++ b) = slept a + slept b.
Proof.
  induction a as [|ev a IH]; [reflexivity|]. simpl.
  destruct ev; rewrite IH; lia.
Qed.

(** The three ways the loop for one text can go. *)
Lemma embed_one_cases E t tr :
  exists evs,
    In evs (embed_shapes t) /\
    snd (embed_one E t 0 tr) = tr ++ evs /\
    match fst (embed_one E t 0 tr) with
    | Ok v => exists tr0, embeddings_try E t tr0 = Ok v
    | Raise e => embed_failure E t e
    end.
Proof.
  rewrite embed_one_unfold.
  destruct (embeddings_try E t tr) as [v|e1] eqn:H1.
  { exists [EvEmbeddings t]. split; [left; reflexivity|].
    split; [reflexivity | cbn [fst]; eauto]. }
  destruct (is_request_exception e1) eqn:R1.
  2: { exists [EvEmbeddings t]. split; [left; reflexivity|].
       split; [reflexivity|]. cbn [fst]. right. eauto. }
  cbn [Nat.leb]. rewrite embed_one_unfold.
  destruct (embeddings_try E t (tr ++ _)) as [v|e2] eqn:H2.
  { exists [EvEmbeddings t; EvSleep 2; EvEmbeddings t].
    split; [right; left; reflexivity|].
    split; [simpl; rewrite <- app_assoc; reflexivity | cbn [fst]; eauto]. }
  destruct (is_request_exception e2) eqn:R2.
  2: { exists [EvEmbeddings t; EvSleep 2; EvEmbeddings t].
       split; [right; left; reflexivity|].
       split; [simpl; rewrite <- app_assoc; reflexivity|].
       cbn [fst]. right. eauto. }
  cbn [Nat.leb]. rewrite embed_one_unfold.
  destruct (embeddings_try E t ((tr ++ _) ++ _)) as [v|e3] eqn:H3.
  { exists [EvEmbeddings t; EvSleep 2; EvEmbeddings t; EvSleep 4;
            EvEmbeddings t].
    split; [right; right; left; reflexivity|].
    split; [simpl; rewrite <- !app_assoc; reflexivity | cbn [fst]; eauto]. }
  exists [EvEmbeddings t; EvSleep 2; EvEmbeddings t; EvSleep 4; EvEmbeddings t].
  split; [right; right; left; reflexivity|].
  destruct (is_request_exception e3) eqn:R3.
  - split; [simpl; rewrite <- !app_assoc; reflexivity|]. cbn [fst].
    left. exists e3. eexists. split; [split; eassumption | reflexivity].
  - split; [simpl; rewrite <- !app_assoc; reflexivity|]. cbn [fst].
    right. eauto.
Qed.

Lemma embed_failure_not_request E t e :
  embed_failure E t e -> is_request_exception e = false.
Proof. intros [(e0 & tr0 & _ & ->) | [H _]]; [reflexivity | assumption]. Qed.

(** The shapes, measured. *)
Lemma embed_shapes_bounds t evs :
  In evs (embed_shapes t) ->
  (1 <= count_embeddings evs <= 3)%nat /\ slept evs <= 6 /\
  Forall (fun ev => ev = EvEmbeddings t \/ ev = EvSleep 2 \/ ev = EvSleep 4)
    evs.
Proof.
  intros [<- | [<- | [<- | []]]]; (split; [vm_compute; lia|]);
    (split; [vm_compute; discriminate|]); repeat constructor; tauto.
Qed.

(** The two ways the generation loop can go. *)
Lemma chat_generate_cases E prompt used tr :
  exists evs,
    In evs (chat_shapes prompt) /\
    snd (chat_generate E prompt used 0 tr) = tr ++ evs /\
    match fst (chat_generate E prompt used 0 tr) with
    | Ok a => True
    | Raise e => is_request_exception e = false
    end.
Proof.
  rewrite chat_generate_unfold.
  destruct (chat_try E prompt used tr) as [a|e1] eqn:H1.
  { exists [EvChat prompt]. split; [left; reflexivity|].
    split; [reflexivity | exact I]. }
  destruct (is_request_exception e1) eqn:R1.
  2: { exists [EvChat prompt]. split; [left; reflexivity|].
       split; [reflexivity | assumption]. }
  cbn [Nat.leb]. rewrite chat_generate_unfold.
  exists [EvChat prompt; EvSleep 4; EvChat prompt].
  split; [right; left; reflexivity|].
  destruct (chat_try E prompt used (tr ++ _)) as [a|e2] eqn:H2.
  { split; [simpl; rewrite <- app_assoc; reflexivity | exact I]. }
  destruct (is_request_exception e2) eqn:R2; cbn [Nat.leb];
    (split; [simpl; rewrite <- app_assoc; reflexivity|]);
    [reflexivity | assumption].
Qed.

Lemma embed_each_length E texts :
  forall out tr vs tr',
    embed_each E texts out tr = (Ok vs, tr') ->
    length vs = (length out + length texts)%nat.
Proof.
  induction texts as [|t rest IH]; intros out tr vs tr' H.
  - injection H as <- _. simpl. lia.
  - rewrite embed_each_cons in H.
    destruct (embed_one E t 0 tr) as [[v|e] tr1]; [|discriminate].
    apply IH in H. rewrite length_app in H. simpl in *. lia.
Qed.

End RetryMore.
Import RetryMore.

(* ===================================================================== *)
(** ** Further properties: embeddings *)
(* ===================================================================== *)

(** X13: when [embed_texts] succeeds it returns exactly one vector per
    text. *)
Theorem embed_texts_one_vector_each E texts tr vs tr' :
  embed_texts E texts tr = (Ok vs, tr') -> length vs = length texts.
Proof. intros H. apply embed_each_length in H. exact H. Qed.

Lemma embed_texts_one_vector_each_witness :
  length [vec (py "hola"); vec (py "mundo")] = length [py "hola"; py "mundo"].
Proof.
  apply (embed_texts_one_vector_each
           (world (flaky_embeddings 1) (flaky_chat 0 (says [])) [])
           [py "hola"; py "mundo"] [] _
           [EvEmbeddings (py "hola"); EvSleep 2; EvEmbeddings (py "hola");
            EvEmbeddings (py "mundo")]).
  reflexivity.
Defined.

(** X14: against a backend that answers every call at once, [embed_texts]
    makes one call per text, in order, never sleeps, and returns the
    vectors of the replies in the order of the texts. *)
Theorem embed_texts_healthy E (f : str -> vector) texts tr :
  (forall t tr0, In t texts -> embeddings_try E t tr0 = Ok (f t)) ->
  embed_texts E texts tr = (Ok (map f texts), tr ++ map EvEmbeddings texts).
Proof.
  unfold embed_texts. change (map f texts) with ([] ++ map f texts).
  generalize (@nil vector) as out. revert tr.
  induction texts as [|t rest IH]; intros tr out H.
  - simpl. rewrite !app_nil_r. reflexivity.
  - rewrite embed_each_cons, embed_one_unfold, (H t tr (or_introl eq_refl)).
    rewrite IH by (intros t0 tr0 Hin; apply H; right; assumption).
    simpl. rewrite <- !app_assoc. reflexivity.
Qed.

Lemma embed_texts_healthy_witness :
  embed_texts (world (flaky_embeddings 0) (flaky_chat 0 (says [])) [])
    [py "hola"; py "mundo"] [] =
  (Ok [vec (py "hola"); vec (py "mundo")],
   [EvEmbeddings (py "hola"); EvEmbeddings (py "mundo")]).
Proof.
  apply (embed_texts_healthy
           (world (flaky_embeddings 0) (flaky_chat 0 (says [])) []) vec).
  intros t tr0 _. reflexivity.
Defined.

(** X15: [embed_texts] only calls the embeddings backend and sleeps: at
    most three calls and six seconds of sleep per text, each sleep of 2 or
    4 seconds, every call for one of the texts; when it succeeds it has
    called at least once per text. *)
Theorem embed_texts_bounded_work E texts tr :
  exists evs,
    snd (embed_texts E texts tr) = tr ++ evs /\
    (count_embeddings evs <= 3 * length texts)%nat /\
    slept evs <= 6 * Z.of_nat (length texts) /\
    Forall (fun ev => (exists t, In t texts /\ ev = EvEmbeddings t) \/
                      ev = EvSleep 2 \/ ev = EvSleep 4) evs /\
    (forall vs, fst (embed_texts E texts tr) = Ok vs ->
                (length texts <= count_embeddings evs)%nat).
Proof.
  unfold embed_texts. generalize (@nil vector) as out. revert tr.
  induction texts as [|t rest IH]; intros tr out.
  - exists []. simpl. rewrite app_nil_r.
    repeat split; try lia; constructor.
  - rewrite embed_each_cons.
    destruct (embed_one_cases E t tr) as (evs1 & Hshape & Htr & _).
    destruct (embed_shapes_bounds t evs1 Hshape) as (Hc & Hs & Hall).
    destruct (embed_one E t 0 tr) as [[v|e] tr1]; cbn [snd] in Htr; subst tr1.
    + destruct (IH (tr ++ evs1) (out ++ [v]))
        as (evs2 & E2 & Hc2 & Hs2 & Hall2 & Hmin).
      exists (evs1 ++ evs2). rewrite E2, app_assoc.
      rewrite count_embeddings_app, slept_app.
      cbn [length]. repeat split; try lia.
      * apply Forall_app. split.
        -- eapply Forall_impl; [|exact Hall].
           intros ev [-> | H]; [left; exists t; split;
                                [left|]; reflexivity | right; exact H].
        -- eapply Forall_impl; [|exact Hall2].
           intros ev [(t0 & Hin & ->) | H];
             [left; exists t0; split; [right; assumption | reflexivity]
             | right; exact H].
      * intros vs Hvs. specialize (Hmin vs Hvs). lia.
    + exists evs1. cbn [length]. repeat split; try lia.
      * eapply Forall_impl; [|exact Hall].
        intros ev [-> | H]; [left; exists t; split;
                             [left|]; reflexivity | right; exact H].
      * intros vs Hvs. discriminate.
Qed.

Lemma embed_texts_bounded_work_witness :
  exists evs,
    snd (embed_texts (world (flaky_embeddings 1) (flaky_chat 0 (says [])) [])
           [py "hola"; py "mundo"] []) = [] ++ evs /\
    (length [py "hola"; py "mundo"] <= count_embeddings evs)%nat.
Proof.
  destruct (embed_texts_bounded_work
              (world (flaky_embeddings 1) (flaky_chat 0 (says [])) [])
              [py "hola"; py "mundo"] []) as (evs & E & _ & _ & _ & H).
  exists evs. split; [exact E|].
  apply (H [vec (py "hola"); vec (py "mundo")]). reflexivity.
Defined.

(** X16: [embed_texts] never lets a [RequestException] out.  When it
    fails, it fails on one of the texts, with its own [HTTPException(503)]
    around the last retried error, or with an error of the call that is
    not a [RequestException]. *)
Theorem embed_texts_failures E texts tr e tr' :
  embed_texts E texts tr = (Raise e, tr') ->
  is_request_exception e = false /\
  exists t, In t texts /\ embed_failure E t e.
Proof.
  unfold embed_texts. generalize (@nil vector) as out. revert tr.
  induction texts as [|t rest IH]; intros tr out H; [discriminate|].
  rewrite embed_each_cons in H.
  destruct (embed_one_cases E t tr) as (_ & _ & _ & Hres).
  destruct (embed_one E t 0 tr) as [[v|e1] tr1]; cbn [fst] in Hres.
  - destruct (IH _ _ H) as (Hr & t0 & Hin & Hf).
    split; [assumption|]. exists t0. split; [right|]; assumption.
  - injection H as <- _.
    split; [eapply embed_failure_not_request; eassumption|].
    exists t. split; [left; reflexivity | assumption].
Qed.

Lemma embed_texts_failures_witness :
  is_request_exception
    (HTTPException 503 (py "Embeddings error: Read timed out.")) = false /\
  exists t,
    In t [py "hola"] /\
    embed_failure (world (flaky_embeddings 3) (flaky_chat 0 (says [])) []) t
      (HTTPException 503 (py "Embeddings error: Read timed out.")).
Proof.
  apply (embed_texts_failures
           (world (flaky_embeddings 3) (flaky_chat 0 (says [])) [])
           [py "hola"] [] _
           [EvEmbeddings (py "hola"); EvSleep 2; EvEmbeddings (py "hola");
            EvSleep 4; EvEmbeddings (py "hola")]).
  reflexivity.
Defined.

(* ===================================================================== *)
(** ** More about ingestion *)
(* ===================================================================== *)

Module IngestMore.

Section Emits.
Variable G : event -> Prop.

Lemma emits_ret {A} (a : A) (Q : A -> Prop) : Q a -> emits G (ret a) Q.
Proof.
  intros H tr. exists []. rewrite app_nil_r.
  repeat split; [constructor | assumption].
Qed.

Lemma emits_raise {A} (e : exn) (Q : A -> Prop) : emits G (raise e) Q.
Proof.
  intros tr. exists []. rewrite app_nil_r.
  repeat split; constructor.
Qed.

Lemma emits_lift {A} (r : result A) (Q : A -> Prop) :
  (forall a, r = Ok a -> Q a) -> emits G (lift r) Q.
Proof.
  intros H tr. exists []. rewrite app_nil_r.
  repeat split; [constructor|]. simpl. destruct r; [auto | exact I].
Qed.

Lemma emits_perform {A} ev (outcome : trace -> result A) (Q : A -> Prop) :
  G ev -> (forall tr a, outcome tr = Ok a -> Q a) ->
  emits G (perform ev outcome) Q.
Proof.
  intros Hev H tr. exists [ev].
  repeat split; [repeat constructor; assumption|]. simpl.
  destruct (outcome tr) eqn:Ho; [eauto | exact I].
Qed.

Lemma emits_bind {A B} (m : M A) (k : A -> M B) (Q : A -> Prop)
    (Q' : B -> Prop) :
  emits G m Q -> (forall a, Q a -> emits G (k a) Q') -> emits G (bind m k) Q'.
Proof.
  intros Hm Hk tr. unfold bind.
  destruct (Hm tr) as (evs & E & Hg & Hq).
  destruct (m tr) as [[a|e] tr1]; simpl in E, Hq; subst tr1.
  - destruct (Hk a Hq (tr ++ evs)) as (evs' & E' & Hg' & Hq').
    exists (evs ++ evs'). rewrite E', app_assoc.
    repeat split; [apply Forall_app; split; assumption | assumption].
  - exists evs. repeat split; assumption.
Qed.

Lemma emits_try_except {A} (body : M A) (handler : exn -> M A)
    (Q : A -> Prop) :
  emits G body Q -> (forall e, emits G (handler e) Q) ->
  emits G (try_except body handler) Q.
Proof.
  intros Hm Hk tr. unfold try_except.
  destruct (Hm tr) as (evs & E & Hg & Hq).
  destruct (body tr) as [[a|e] tr1]; simpl in E, Hq; subst tr1.
  - exists evs. repeat split; assumption.
  - destruct (Hk e (tr ++ evs)) as (evs' & E' & Hg' & Hq').
    exists (evs ++ evs'). rewrite E', app_assoc.
    repeat split; [apply Forall_app; split; assumption | assumption].
Qed.

Lemma emits_weaken {A} (m : M A) (Q Q' : A -> Prop) :
  emits G m Q -> (forall a, Q a -> Q' a) -> emits G m Q'.
Proof.
  intros Hm H tr. destruct (Hm tr) as (evs & E & Hg & Hq).
  exists evs. repeat split; try assumption.
  destruct (fst (m tr)); [auto | exact I].
Qed.

Hypothesis G_embeddings : forall t, G (EvEmbeddings t).
Hypothesis G_sleep : forall s, G (EvSleep s).
Hypothesis G_uuid : G EvUuid.

Lemma emits_embed_one E t : emits G (embed_one E t 0) (fun _ => True).
Proof.
  intros tr. destruct (embed_one_cases E t tr) as (evs & Hshape & Htr & _).
  exists evs. split; [assumption|]. split.
  - destruct Hshape as [<- | [<- | [<- | []]]]; repeat constructor; auto.
  - destruct (fst (embed_one E t 0 tr)); exact I.
Qed.

Lemma emits_embed_each E texts :
  forall out,
    emits G (embed_each E texts out)
      (fun vs => length vs = (length out + length texts)%nat).
Proof.
  induction texts as [|t rest IH]; intros out.
  - apply emits_ret. simpl. lia.
  - simpl. eapply emits_bind; [apply emits_embed_one|]. intros v _.
    eapply emits_weaken; [apply IH|].
    intros vs H. rewrite H, length_app. simpl. lia.
Qed.

Lemma slice_to_short {A} (l : list A) (n : Z) :
  0 <= n -> (length (slice_to l n) <= Z.to_nat n)%nat.
Proof.
  intros H. unfold slice_to. destruct (Z.ltb_spec n 0); [lia|].
  rewrite length_firstn. lia.
Qed.

Lemma emits_short_ids {A} E (parts : list A) :
  emits G (short_ids E parts)
    (fun ids => length ids = length parts /\
                Forall (fun i => (length i <= 8)%nat) ids).
Proof.
  induction parts as [|x rest IH].
  - apply emits_ret. split; [reflexivity | constructor].
  - simpl. eapply emits_bind;
      [apply emits_perform with (Q := fun _ => True); [assumption | auto]|].
    intros u _. eapply emits_bind; [apply IH|]. intros us [Hlen Hall].
    apply emits_ret. split; [simpl; congruence|].
    constructor; [|assumption].
    apply (slice_to_short u 8). lia.
Qed.
End Emits.

Lemma tidy_insert ids (vectors : list vector) parts :
  length ids = length parts -> length vectors = length parts ->
  parts <> [] -> Forall (fun i => (length i <= 8)%nat) ids ->
  Forall proper parts -> tidy (EvInsert ids vectors parts).
Proof. simpl. tauto. Qed.

(** The part of the pipeline the three endpoints share: embed the chunks,
    make the ids, insert. *)
Lemma emits_store E raw mc c parts' {A} (k : list str -> M A) (Q : A -> Prop) :
  chunk_text raw default_chunk_size default_overlap mc = c :: parts' ->
  (forall ids, length ids = length (c :: parts') -> emits tidy (k ids) Q) ->
  emits tidy
    (vectors <- embed_texts E (c :: parts') ;;
     ids <- short_ids E (c :: parts') ;;
     insert E ids vectors (c :: parts') ;;; k ids)%py Q.
Proof.
  intros Hparts Hk.
  eapply emits_bind;
    [apply (emits_embed_each tidy); intros; exact I|].
  intros vectors Hv. simpl in Hv.
  eapply emits_bind; [apply (emits_short_ids tidy); exact I|].
  intros ids [Hlen Hshort].
  eapply emits_bind; [|intros _ _; apply Hk; assumption].
  apply emits_perform with (Q := fun _ => True); [|auto].
  apply tidy_insert; try assumption; try discriminate.
  rewrite <- Hparts, chunk_text_finish. apply finish_proper.
Qed.

Lemma emits_ingest_file E p name files total :
  emits tidy (ingest_file E p name files total) (fun _ => True).
Proof.
  unfold ingest_file. apply emits_try_except;
    [|intros e; apply emits_ret; exact I].
  eapply emits_bind; [apply emits_lift with (Q := fun _ => True); auto|].
  intros raw _.
  destruct (chunk_text raw default_chunk_size default_overlap None)
    as [|c parts'] eqn:Hparts; [apply emits_ret; exact I|].
  apply (emits_store E raw None c parts'); [assumption|].
  intros ids _. apply emits_ret. exact I.
Qed.

Lemma emits_ingest_path_loop E docs :
  forall files total,
    emits tidy (ingest_path_loop E docs files total) (fun _ => True).
Proof.
  induction docs as [|p rest IH]; intros files total; simpl.
  - apply emits_ret. exact I.
  - destruct (supported (doc_suffix p)); simpl; [|apply IH].
    eapply emits_bind; [apply emits_ingest_file|]. intros st _. apply IH.
Qed.

Lemma emits_ingest_files_loop E uploads :
  forall files total,
    emits tidy (ingest_files_loop E uploads files total) (fun _ => True).
Proof.
  induction uploads as [|f rest IH]; intros files total; simpl.
  - apply emits_ret. exact I.
  - eapply emits_bind; [apply emits_lift with (Q := fun _ => True); auto|].
    intros dest _.
    eapply emits_bind; [apply emits_ingest_file|]. intros st _. apply IH.
Qed.

Lemma emits_flush E : emits tidy (flush E) (fun _ => True).
Proof. apply emits_perform; [exact I | auto]. Qed.

End IngestMore.
Import IngestMore.

(* ===================================================================== *)
(** ** Further properties: ingestion *)
(* ===================================================================== *)

(** X17: whatever the endpoint and the world, every insert handed to the
    collection is well formed: as many ids and vectors as texts, at least
    one row, ids of at most 8 characters, and every text a non-empty chunk
    without white space at its ends. *)
Theorem inserts_are_tidy E tr :
  (forall docs_dir,
     exists evs,
       snd (ingest_path E docs_dir tr) = tr ++ evs /\ Forall tidy evs) /\
  (forall uploads,
     exists evs,
       snd (ingest_files E uploads tr) = tr ++ evs /\ Forall tidy evs) /\
  (forall p max_pages max_chunks,
     exists evs,
       snd (ingest_one E p max_pages max_chunks tr) = tr ++ evs /\
       Forall tidy evs).
Proof.
  assert (H : forall A (m : M A), emits tidy m (fun _ => True) ->
              exists evs, snd (m tr) = tr ++ evs /\ Forall tidy evs).
  { intros A m Hm. destruct (Hm tr) as (evs & E1 & Hg & _).
    exists evs. split; assumption. }
  split; [|split].
  - intros docs_dir. apply H. unfold ingest_path.
    eapply emits_bind; [apply emits_ingest_path_loop|]. intros st _.
    eapply emits_bind; [apply emits_flush|]. intros _ _.
    apply emits_ret. exact I.
  - intros uploads. apply H. unfold ingest_files.
    eapply emits_bind; [apply emits_ingest_files_loop|]. intros st _.
    eapply emits_bind; [apply emits_flush|]. intros _ _.
    apply emits_ret. exact I.
  - intros p max_pages max_chunks. apply H. unfold ingest_one.
    destruct (negb (doc_exists p)); [apply emits_raise|].
    apply emits_try_except; [|intros e; apply emits_raise].
    eapply emits_bind; [apply emits_lift with (Q := fun _ => True); auto|].
    intros raw _.
    destruct (chunk_text raw default_chunk_size default_overlap max_chunks)
      as [|c parts'] eqn:Hparts; [apply emits_ret; exact I|].
    apply (emits_store E raw max_chunks c parts'); [assumption|].
    intros ids _.
    eapply emits_bind; [apply emits_flush|]. intros _ _.
    apply emits_ret. exact I.
Qed.

Module IngestOneMore.

Lemma ingest_one_present E p max_pages max_chunks tr :
  doc_exists p = true ->
  ingest_one E p max_pages max_chunks tr =
  match load_document p (if str_eqb (doc_suffix p) (py ".pdf")
                         then max_pages else None) with
  | Raise e0 => (Raise (wrapped p e0), tr)
  | Ok raw =>
      match chunk_text raw default_chunk_size default_overlap max_chunks with
      | [] => (Ok {| inserted := 0; files := [no_text (doc_name p)] |}, tr)
      | c :: parts' =>
          match embed_texts E (c :: parts') tr with
          | (Raise e0, tr1) => (Raise (wrapped p e0), tr1)
          | (Ok vectors, tr1) =>
              match short_ids E (c :: parts') tr1 with
              | (Raise e0, tr2) => (Raise (wrapped p e0), tr2)
              | (Ok ids, tr2) =>
                  let tr3 := tr2 ++ [EvInsert ids vectors (c :: parts')] in
                  match collection_insert E tr2 ids vectors (c :: parts') with
                  | Some e0 => (Raise (wrapped p e0), tr3)
                  | None =>
                      match collection_flush E tr3 with
                      | Some e0 => (Raise (wrapped p e0), tr3 ++ [EvFlush])
                      | None =>
                          (Ok {| inserted := Z.of_nat (length ids);
                                 files := [doc_name p] |},
                           tr3 ++ [EvFlush])
                      end
                  end
              end
          end
      end
  end.
Proof.
  intros Hex. unfold ingest_one. rewrite Hex. cbn [negb].
  unfold try_except, bind, lift, wrapped.
  destruct (load_document p _) as [raw|e0]; [|reflexivity].
  destruct (chunk_text raw default_chunk_size default_overlap max_chunks)
    as [|c parts']; [reflexivity|].
  destruct (embed_texts E (c :: parts') tr) as [[vectors|e0] tr1];
    [|reflexivity].
  destruct (short_ids E (c :: parts') tr1) as [[ids|e0] tr2]; [|reflexivity].
  unfold insert, flush, perform, raise, ret.
  destruct (collection_insert E tr2 ids vectors (c :: parts')); [reflexivity|].
  destruct (collection_flush E _); reflexivity.
Qed.

End IngestOneMore.
Import IngestOneMore.



(** X19: when [ingest_one] succeeds on a file with text, it has inserted
    every chunk of the text in one batch and flushed once, right after the
    insert and as its last act; [inserted] is the number of chunks, which a
    ceiling [max_chunks >= 1] bounds. *)
Theorem ingest_one_success E p max_pages max_chunks tr report tr' :
  ingest_one E p max_pages max_chunks tr = (Ok report, tr') ->
  exists raw,
    load_document p (if str_eqb (doc_suffix p) (py ".pdf")
                     then max_pages else None) = Ok raw /\
    let parts :=
      chunk_text raw default_chunk_size default_overlap max_chunks in
    (parts = [] /\ tr' = tr /\
     report = {| inserted := 0; files := [no_text (doc_name p)] |}) \/
    (parts <> [] /\
     report = {| inserted := Z.of_nat (length parts);
                 files := [doc_name p] |} /\
     (forall n, max_chunks = Some n -> 1 <= n -> inserted report <= n) /\
     exists evs ids vectors,
       tr' = tr ++ evs ++ [EvInsert ids vectors parts; EvFlush] /\
       no_flush evs /\ Forall read_only evs).
Proof.
  intros H.
  destruct (doc_exists p) eqn:Hex.
  2: { unfold ingest_one in H. rewrite Hex in H. discriminate. }
  rewrite (ingest_one_present E p max_pages max_chunks tr Hex) in H.
  destruct (load_document p _) as [raw|e0]; [|discriminate].
  exists raw. split; [reflexivity|]. cbv zeta.
  destruct (chunk_text raw default_chunk_size default_overlap max_chunks)
    as [|c parts'] eqn:Hparts.
  { injection H as <- <-. left. repeat split. }
  right. split; [discriminate|].
  pose proof (emits_embed_each (fun ev => is_flush ev = false /\ read_only ev)
                ltac:(intros; split; [reflexivity | exact I])
                ltac:(intros; split; [reflexivity | exact I])
                E (c :: parts') [] tr) as (evs1 & E1 & G1 & _).
  unfold embed_texts in H.
  destruct (embed_each E (c :: parts') [] tr) as [[vectors|e0] tr1];
    [|discriminate].
  cbn [snd] in E1. subst tr1.
  pose proof (emits_short_ids (fun ev => is_flush ev = false /\ read_only ev)
                ltac:(split; [reflexivity | exact I])
                E (c :: parts') (tr ++ evs1)) as (evs2 & E2 & G2 & Hids).
  destruct (short_ids E (c :: parts') (tr ++ evs1)) as [[ids|e0] tr2];
    [|discriminate].
  cbn [snd fst] in E2, Hids. subst tr2. destruct Hids as [Hlen _].
  cbv zeta in H.
  destruct (collection_insert E _ ids vectors (c :: parts')); [discriminate|].
  destruct (collection_flush E _); [discriminate|].
  injection H as <- <-. rewrite Hlen.
  split; [reflexivity|]. split.
  - intros n -> Hn. cbn [inserted]. rewrite <- Hparts.
    rewrite chunk_text_finish, chunk_loop_ceiling by (simpl; lia).
    rewrite length_firstn. lia.
  - exists (evs1 ++ evs2), ids, vectors. split.
    + rewrite <- !app_assoc. reflexivity.
    + assert (G : Forall (fun ev => is_flush ev = false /\ read_only ev)
                    (evs1 ++ evs2))
        by (apply Forall_app; split; assumption).
      split; (eapply Forall_impl; [|exact G]); intros ev [Ha Hb]; assumption.
Qed.

Lemma ingest_one_success_witness :
  exists raw,
    load_document first_file None = Ok raw /\
    let parts :=
      chunk_text raw default_chunk_size default_overlap default_max_chunks in
    (parts = [] /\
     [EvEmbeddings (py "uno" ++ nl :: py "dos"); EvUuid;
      EvInsert [py "00000001"] [[7 # 1]] [py "uno" ++ nl :: py "dos"];
      EvFlush] = [] /\
     {| inserted := 1; files := [py "a.txt"] |} =
     {| inserted := 0; files := [no_text (doc_name first_file)] |}) \/
    (parts <> [] /\
     {| inserted := 1; files := [py "a.txt"] |} =
     {| inserted := Z.of_nat (length parts);
        files := [doc_name first_file] |} /\
     (forall n, default_max_chunks = Some n -> 1 <= n ->
                inserted {| inserted := 1; files := [py "a.txt"] |} <= n) /\
     exists evs ids vectors,
       [EvEmbeddings (py "uno" ++ nl :: py "dos"); EvUuid;
        EvInsert [py "00000001"] [[7 # 1]] [py "uno" ++ nl :: py "dos"];
        EvFlush] = [] ++ evs ++ [EvInsert ids vectors parts; EvFlush] /\
       no_flush evs /\ Forall read_only evs).
Proof.
  apply (ingest_one_success
           (world (flaky_embeddings 0) (flaky_chat 0 (says [])) [])
           first_file default_max_pages default_max_chunks []).
  reflexivity.
Defined.

(** X20: a failure of [ingest_one] before the insert leaves the collection
    untouched.  A suffix other than [.pdf], [.txt] and [.md] is refused
    with [HTTPException(500)] and no event at all; an embedding that fails
    is reported as [HTTPException(500)] around its error (the 503 of an
    exhausted retry included), after the embedding calls and nothing
    else. *)
Theorem ingest_one_fails_before_insert E p max_pages max_chunks tr :
  doc_exists p = true ->
  (supported (doc_suffix p) = false ->
   ingest_one E p max_pages max_chunks tr =
     (Raise (HTTPException 500
               (py "Ingest error " ++ doc_name p
                ++ py ": Tipo de archivo no soportado: " ++ doc_suffix p)),
      tr)) /\
  (forall raw e0 tr1,
     load_document p (if str_eqb (doc_suffix p) (py ".pdf")
                      then max_pages else None) = Ok raw ->
     embed_texts E
       (chunk_text raw default_chunk_size default_overlap max_chunks) tr =
       (Raise e0, tr1) ->
     ingest_one E p max_pages max_chunks tr = (Raise (wrapped p e0), tr1) /\
     exists evs, tr1 = tr ++ evs /\ Forall read_only evs).
Proof.
  intros Hex. rewrite (ingest_one_present E p max_pages max_chunks tr Hex).
  split.
  - intros Hs. unfold load_document. unfold supported in Hs.
    apply orb_false_iff in Hs. destruct Hs as [Hs Hmd].
    apply orb_false_iff in Hs. destruct Hs as [Hpdf Htxt].
    rewrite Hpdf, Htxt, Hmd. reflexivity.
  - intros raw e0 tr1 Hload Hembed. rewrite Hload.
    destruct (chunk_text raw default_chunk_size default_overlap max_chunks)
      as [|c parts']; [discriminate|].
    rewrite Hembed. split; [reflexivity|].
    pose proof (emits_embed_each read_only
                  ltac:(intros; exact I) ltac:(intros; exact I)
                  E (c :: parts') [] tr) as (evs & E1 & G1 & _).
    unfold embed_texts in Hembed. rewrite Hembed in E1.
    exists evs. split; assumption.
Qed.

Lemma ingest_one_fails_before_insert_witness :
  ingest_one (world (flaky_embeddings 3) (flaky_chat 0 (says [])) [])
    third_file default_max_pages default_max_chunks [] =
  (Raise (HTTPException 500
            (py "Ingest error c.md: 503: Embeddings error: Read timed out.")),
   [EvEmbeddings (py "cuatro"); EvSleep 2; EvEmbeddings (py "cuatro");
    EvSleep 4; EvEmbeddings (py "cuatro")]).
Proof.
  destruct (ingest_one_fails_before_insert
              (world (flaky_embeddings 3) (flaky_chat 0 (says [])) [])
              third_file default_max_pages default_max_chunks [] eq_refl)
    as [_ H].
  destruct (H (py "cuatro")
              (HTTPException 503 (py "Embeddings error: Read timed out."))
              [EvEmbeddings (py "cuatro"); EvSleep 2;
               EvEmbeddings (py "cuatro"); EvSleep 4;
               EvEmbeddings (py "cuatro")] eq_refl eq_refl) as [H1 _].
  exact H1.
Defined.

(** X21: [ingest_path] treats a directory as if the files with another
    suffix than [.pdf], [.txt] and [.md] were not there: they cost no
    event and leave no line in the report. *)
Theorem ingest_path_skips_unsupported E docs_dir tr :
  ingest_path E docs_dir tr =
  ingest_path E (filter (fun p => supported (doc_suffix p)) docs_dir) tr.
Proof.
  unfold ingest_path, bind.
  assert (H : forall files total tr0,
             ingest_path_loop E docs_dir files total tr0 =
             ingest_path_loop E
               (filter (fun p => supported (doc_suffix p)) docs_dir)
               files total tr0).
  { induction docs_dir as [|p rest IH]; intros files total tr0;
      [reflexivity|].
    simpl. destruct (supported (doc_suffix p)) eqn:Hs; simpl.
    - rewrite Hs. simpl. unfold bind.
      destruct (ingest_file E p (doc_name p) files total tr0)
        as [[st|e] tr1]; [apply IH | reflexivity].
    - apply IH. }
  rewrite H. reflexivity.
Qed.

Module BatchAbort.

(** The loop of [ingest_files] over two runs of uploads is the loop over
    the first, then, if that ended normally, over the second. *)
Lemma ingest_files_loop_app E before after :
  forall files total tr,
    ingest_files_loop E (before ++ after) files total tr =
    (st <- ingest_files_loop E before files total ;;
     ingest_files_loop E after (fst st) (snd st))%py tr.
Proof.
  induction before as [|u before IH]; intros files total tr;
    [reflexivity|].
  simpl. unfold bind, lift. destruct (saved u) as [d|e]; [|reflexivity].
  destruct (ingest_file E d (filename u) files total tr) as [[st|e] tr2];
    [|reflexivity].
  rewrite IH. reflexivity.
Qed.

End BatchAbort.
Import BatchAbort.

(** X22: an upload that cannot be saved aborts [ingest_files] with that
    error.  The uploads before it have been processed: each has the
    outcome of its pipeline, and the events are exactly those a batch of
    these uploads alone performs before its flush.  Nothing follows: the
    uploads after the failing one cost no event, whatever they are, and
    there is no flush, so what was inserted so far stays unflushed. *)
Theorem ingest_files_save_failure E done dests f e tr :
  Forall2 (fun u d => saved u = Ok d) done dests ->
  saved f = Raise e ->
  exists sts evs,
    explains_all E tr dests sts evs /\
    no_flush evs /\
    ingest_files E done tr =
      flushed_report E (tr ++ evs) (report_of (map filename done) sts) /\
    forall rest,
      ingest_files E (done ++ f :: rest) tr = (Raise e, tr ++ evs).
Proof.
  intros Hdone Hf.
  destruct (ingest_files_loop_outcome E done dests Hdone [] 0 tr)
    as (sts & evs & E1 & Q & X).
  exists sts, evs. repeat split; try assumption.
  - unfold ingest_files, bind. rewrite E1.
    unfold flush, perform, flushed_report, report_of. simpl.
    destruct (collection_flush E (tr ++ evs)); reflexivity.
  - intros rest. unfold ingest_files. unfold bind at 1.
    rewrite ingest_files_loop_app. unfold bind at 1. rewrite E1.
    simpl. unfold bind at 1. unfold lift. rewrite Hf. reflexivity.
Qed.

Lemma ingest_files_save_failure_witness :
  ingest_files picky_world
    ([uploaded first_file; uploaded third_file]
     ++ unsaved (py "big.pdf") :: [uploaded fifth_file]) [] =
  (Raise denied,
   [EvEmbeddings (py "uno" ++ nl :: py "dos"); EvUuid;
    EvInsert [py "00000001"] [[7 # 1]] [py "uno" ++ nl :: py "dos"];
    EvEmbeddings (py "cuatro"); EvUuid;
    EvInsert [py "00000004"] [[6 # 1]] [py "cuatro"]]).
Proof.
  destruct (ingest_files_save_failure picky_world
              [uploaded first_file; uploaded third_file]
              [first_file; third_file] (unsaved (py "big.pdf")) denied [])
    as (sts & evs & Hx & _ & _ & Hrest);
    [repeat constructor | reflexivity |].
  assert (Hx0 :
    explains_all picky_world [] [first_file; third_file]
      [Inserted 1; Failed store_down]
      (([EvEmbeddings (py "uno" ++ nl :: py "dos")] ++ [EvUuid] ++
        [EvInsert [py "00000001"] [[7 # 1]] [py "uno" ++ nl :: py "dos"]])
       ++ ([EvEmbeddings (py "cuatro")] ++ [EvUuid] ++
           [EvInsert [py "00000004"] [[6 # 1]] [py "cuatro"]]) ++ [])).
  { apply next_file.
    { apply (chunks_inserted picky_world _ first_file
               (py "uno" ++ nl :: py "dos"));
        [reflexivity | vm_compute; discriminate | reflexivity ..]. }
    apply next_file.
    { apply (insert_raised picky_world _ third_file (py "cuatro"));
        [reflexivity | vm_compute; discriminate | reflexivity ..]. }
    apply no_file_left. }
  destruct (explains_all_functional _ _ _ _ _ _ _ Hx Hx0) as [-> ->].
  rewrite Hrest. reflexivity.
Defined.

(* ===================================================================== *)
(** ** Batches against healthy backends *)
(* ===================================================================== *)

Module HealthyBatch.

Lemma embed_each_healthy E texts :
  healthy E ->
  forall out tr,
    exists vs, embed_each E texts out tr =
               (Ok vs, tr ++ map EvEmbeddings texts).
Proof.
  intros [Hembed _]. induction texts as [|t rest IH]; intros out tr.
  - exists out. simpl. rewrite app_nil_r. reflexivity.
  - rewrite embed_each_cons, embed_one_unfold.
    destruct (Hembed t tr) as (v & ->).
    destruct (IH (out ++ [v]) (tr ++ [EvEmbeddings t])) as (vs & ->).
    exists vs. simpl. rewrite <- app_assoc. reflexivity.
Qed.

Lemma ingest_file_healthy E p name files total tr :
  healthy E ->
  exists evs,
    ingest_file E p name files total tr =
      (Ok (files ++ [status_line name (plain_status p)],
           total + status_count (plain_status p)),
       tr ++ evs)
    /\ no_flush evs.
Proof.
  intros Hh. unfold ingest_file, try_except, bind, lift, plain_status.
  destruct (load_document p None) as [raw|e].
  2: { exists []. rewrite app_nil_r, Z.add_0_r.
       split; [reflexivity | constructor]. }
  destruct (chunk_text raw default_chunk_size default_overlap None)
    as [|c parts'].
  { exists []. rewrite app_nil_r, Z.add_0_r.
    split; [reflexivity | constructor]. }
  unfold embed_texts.
  destruct (embed_each_healthy E (c :: parts') Hh [] tr) as (vectors & ->).
  destruct (short_ids_ok E (c :: parts')
              (tr ++ map EvEmbeddings (c :: parts')))
    as (ids & tr2 & E2 & Hlen).
  destruct (short_ids_quiet E (c :: parts')
              (tr ++ map EvEmbeddings (c :: parts')))
    as (evs2 & E2' & Q2).
  rewrite E2 in E2'. simpl in E2'. subst tr2. rewrite E2.
  unfold insert, perform. destruct Hh as [_ Hinsert]. rewrite Hinsert.
  exists (map EvEmbeddings (c :: parts') ++ evs2
          ++ [EvInsert ids vectors (c :: parts')]).
  rewrite !app_assoc, Hlen. split; [reflexivity|].
  repeat (apply Forall_app; split); try assumption;
    [|repeat constructor].
  apply Forall_forall. intros ev Hev. apply in_map_iff in Hev.
  destruct Hev as (t & <- & _). reflexivity.
Qed.

Lemma ingest_path_loop_healthy E docs :
  healthy E ->
  forall files total tr,
  exists evs,
    ingest_path_loop E docs files total tr =
      (Ok (files ++ status_lines
                      (map doc_name
                         (filter (fun p => supported (doc_suffix p)) docs))
                      (map plain_status
                         (filter (fun p => supported (doc_suffix p)) docs)),
           total + counted
                     (map plain_status
                        (filter (fun p => supported (doc_suffix p)) docs))),
       tr ++ evs)
    /\ no_flush evs.
Proof.
  intros Hh. induction docs as [|p rest IH]; intros files total tr.
  - exists []. simpl. unfold ret, status_lines, counted. simpl.
    rewrite !app_nil_r, Z.add_0_r. split; [reflexivity | constructor].
  - simpl. destruct (supported (doc_suffix p)); simpl; [|apply IH].
    unfold bind.
    destruct (ingest_file_healthy E p (doc_name p) files total tr Hh)
      as (evs1 & -> & Q1).
    destruct (IH (files ++ [status_line (doc_name p) (plain_status p)])
                (total + status_count (plain_status p)) (tr ++ evs1))
      as (evs2 & E2 & Q2).
    simpl. rewrite E2. exists (evs1 ++ evs2).
    rewrite status_lines_cons, counted_cons, <- !app_assoc, Z.add_assoc.
    split; [reflexivity | apply Forall_app; split; assumption].
Qed.

End HealthyBatch.
Import HealthyBatch.

(** X23: against backends that answer (every embedding call returns a
    vector at once, every insert is accepted) the report of [ingest_path]
    depends on the files alone: a file that cannot be read gets its error
    line, a file without text the no-text line, every other file its bare
    name, and [inserted] is the number of chunks of all those files
    together. *)
Theorem ingest_path_healthy E docs_dir tr :
  healthy E ->
  exists evs,
    no_flush evs /\
    ingest_path E docs_dir tr =
      flushed_report E (tr ++ evs)
        (report_of
           (map doc_name
              (filter (fun p => supported (doc_suffix p)) docs_dir))
           (map plain_status
              (filter (fun p => supported (doc_suffix p)) docs_dir))).
Proof.
  intros Hh.
  destruct (ingest_path_loop_healthy E docs_dir Hh [] 0 tr)
    as (evs & E1 & Q).
  exists evs. split; [assumption|].
  unfold ingest_path, bind. rewrite E1.
  unfold flush, perform, flushed_report, report_of. simpl.
  destruct (collection_flush E (tr ++ evs)); reflexivity.
Qed.

Lemma ingest_path_healthy_witness :
  exists evs,
    no_flush evs /\
    ingest_path (world (flaky_embeddings 0) (flaky_chat 0 (says [])) [])
      [first_file; second_file; blank_file] [] =
    flushed_report (world (flaky_embeddings 0) (flaky_chat 0 (says [])) [])
      ([] ++ evs)
      (report_of
         (map doc_name
            (filter (fun p => supported (doc_suffix p))
               [first_file; second_file; blank_file]))
         (map plain_status
            (filter (fun p => supported (doc_suffix p))
               [first_file; second_file; blank_file]))).
Proof.
  apply ingest_path_healthy. split.
  - intros t tr. exists (vec t). reflexivity.
  - intros tr ids vectors texts. reflexivity.
Defined.

(** The same run, evaluated. *)
Example ingest_path_three_files :
  ingest_path (world (flaky_embeddings 0) (flaky_chat 0 (says [])) [])
    [first_file; second_file; blank_file] [] =
  (Ok {| inserted := 1;
         files := [py "a.txt";
                   py "b.txt (ERROR: [Errno 13] Permission denied)";
                   py "blank.txt (sin texto)"] |},
   [EvEmbeddings (py "uno" ++ nl :: py "dos"); EvUuid;
    EvInsert [py "00000001"] [[7 # 1]] [py "uno" ++ nl :: py "dos"];
    EvFlush]).
Proof. vm_compute. reflexivity. Qed.

(* ===================================================================== *)
(** ** More about chat *)
(* ===================================================================== *)

Module ChatMore.

Lemma chat_unfold E q tr :
  chat E q tr =
  match embed_one E q 0 tr with
  | (Raise e, tr1) => (Raise e, tr1)
  | (Ok qvec, tr1) =>
      match collection_search E tr1 qvec (TOP_K E) with
      | Raise e => (Raise e, tr1 ++ [EvSearch qvec (TOP_K E)])
      | Ok hits =>
          chat_generate E (build_prompt (fst (context_of hits)) q)
            (snd (context_of hits)) 0 (tr1 ++ [EvSearch qvec (TOP_K E)])
      end
  end.
Proof.
  unfold chat, bind, embed_texts. rewrite embed_each_cons.
  destruct (embed_one E q 0 tr) as [[qvec|e] tr1]; [|reflexivity].
  cbn [embed_each ret app lift first_vector]. unfold search, perform.
  destruct (collection_search E tr1 qvec (TOP_K E)); reflexivity.
Qed.

Lemma embed_shapes_query q evs :
  In evs (embed_shapes q) ->
  (count_embeddings evs <= 3)%nat /\ count_searches evs = 0%nat /\
  count_chats evs = 0%nat /\ slept evs <= 6 /\ Forall (query_event q) evs.
Proof.
  intros [<- | [<- | [<- | []]]]; repeat split;
    try (vm_compute; lia); try (vm_compute; discriminate);
    repeat constructor; simpl; tauto.
Qed.

Lemma chat_shapes_query q prompt evs :
  In evs (chat_shapes prompt) ->
  count_embeddings evs = 0%nat /\ count_searches evs = 0%nat /\
  (count_chats evs <= 2)%nat /\ slept evs <= 4 /\ Forall (query_event q) evs.
Proof.
  intros [<- | [<- | []]]; repeat split;
    try (vm_compute; lia); try (vm_compute; discriminate);
    repeat constructor; simpl; tauto.
Qed.

End ChatMore.
Import ChatMore.

(* ===================================================================== *)
(** ** Further properties: chat *)
(* ===================================================================== *)

(** X24: answering a question costs at most three embedding calls, one
    search and two generation calls, and at most ten seconds of sleep;
    [chat] embeds nothing but the question and never writes to the
    collection. *)
Theorem chat_bounded_work E q tr :
  exists evs,
    snd (chat E q tr) = tr ++ evs /\
    (count_embeddings evs <= 3)%nat /\ (count_searches evs <= 1)%nat /\
    (count_chats evs <= 2)%nat /\ slept evs <= 10 /\
    Forall (query_event q) evs.
Proof.
  rewrite chat_unfold.
  destruct (embed_one_cases E q tr) as (evs1 & Hshape & Htr & _).
  destruct (embed_shapes_query q evs1 Hshape) as (He & Hs & Hc & Hsl & Hall).
  destruct (embed_one E q 0 tr) as [[qvec|e] tr1]; cbn [snd] in Htr; subst tr1.
  2: { exists evs1. repeat split; try lia; assumption. }
  assert (S1 : count_searches [EvSearch qvec (TOP_K E)] = 1%nat)
    by reflexivity.
  assert (S2 : count_embeddings [EvSearch qvec (TOP_K E)] = 0%nat)
    by reflexivity.
  assert (S3 : count_chats [EvSearch qvec (TOP_K E)] = 0%nat) by reflexivity.
  assert (S4 : slept [EvSearch qvec (TOP_K E)] = 0) by reflexivity.
  destruct (collection_search E (tr ++ evs1) qvec (TOP_K E)) as [hits|e].
  2: { exists (evs1 ++ [EvSearch qvec (TOP_K E)]). rewrite app_assoc.
       rewrite count_embeddings_app, count_searches_app, count_chats_app,
         slept_app, S1, S2, S3, S4.
       repeat split; try lia.
       apply Forall_app. split; [assumption | repeat constructor]. }
  destruct (chat_generate_cases E (build_prompt (fst (context_of hits)) q)
              (snd (context_of hits))
              ((tr ++ evs1) ++ [EvSearch qvec (TOP_K E)]))
    as (evs2 & Hshape2 & Htr2 & _).
  destruct (chat_shapes_query q _ evs2 Hshape2)
    as (He2 & Hs2 & Hc2 & Hsl2 & Hall2).
  exists (evs1 ++ [EvSearch qvec (TOP_K E)] ++ evs2).
  rewrite Htr2, <- !app_assoc.
  rewrite !count_embeddings_app, !count_searches_app, !count_chats_app,
    !slept_app, S1, S2, S3, S4.
  repeat split; try lia.
  apply Forall_app. split; [assumption|].
  apply Forall_app. split; [repeat constructor | assumption].
Qed.

(** X25: when the question cannot be embedded [chat] raises that error
    after the embedding calls alone; when the search raises, [chat] raises
    that error right after the search.  In both cases no generation call
    is made. *)
Theorem chat_retrieval_failures E q tr :
  (forall e tr1,
     embed_one E q 0 tr = (Raise e, tr1) ->
     chat E q tr = (Raise e, tr1) /\
     exists evs, tr1 = tr ++ evs /\
                 count_searches evs = 0%nat /\ count_chats evs = 0%nat) /\
  (forall qvec tr1 e,
     embed_one E q 0 tr = (Ok qvec, tr1) ->
     collection_search E tr1 qvec (TOP_K E) = Raise e ->
     chat E q tr = (Raise e, tr1 ++ [EvSearch qvec (TOP_K E)]) /\
     exists evs, tr1 = tr ++ evs /\ count_chats evs = 0%nat).
Proof.
  split.
  - intros e tr1 H. rewrite chat_unfold, H. split; [reflexivity|].
    destruct (embed_one_cases E q tr) as (evs1 & Hshape & Htr & _).
    rewrite H in Htr. exists evs1. split; [exact Htr|].
    destruct (embed_shapes_query q evs1 Hshape) as (_ & Hs & Hc & _).
    split; assumption.
  - intros qvec tr1 e H Hsearch. rewrite chat_unfold, H, Hsearch.
    split; [reflexivity|].
    destruct (embed_one_cases E q tr) as (evs1 & Hshape & Htr & _).
    rewrite H in Htr. exists evs1. split; [exact Htr|].
    destruct (embed_shapes_query q evs1 Hshape) as (_ & _ & Hc & _).
    assumption.
Qed.

Lemma chat_retrieval_failures_witness :
  chat (world (flaky_embeddings 3) (flaky_chat 0 (says (py "Paris"))) capitals)
    question [] =
  (Raise (HTTPException 503 (py "Embeddings error: Read timed out.")),
   [EvEmbeddings question; EvSleep 2; EvEmbeddings question; EvSleep 4;
    EvEmbeddings question]).
Proof.
  destruct (chat_retrieval_failures
              (world (flaky_embeddings 3) (flaky_chat 0 (says (py "Paris")))
                 capitals) question []) as [H _].
  destruct (H (HTTPException 503 (py "Embeddings error: Read timed out."))
              [EvEmbeddings question; EvSleep 2; EvEmbeddings question;
               EvSleep 4; EvEmbeddings question] eq_refl) as [H1 _].
  exact H1.
Defined.

(** X26: [chat] never lets a [RequestException] of its calls to Ollama
    out: if it raises one, the search of the collection raised it. *)
Theorem chat_request_exceptions E q tr e tr' :
  chat E q tr = (Raise e, tr') ->
  is_request_exception e = true ->
  exists tr1 qvec, collection_search E tr1 qvec (TOP_K E) = Raise e.
Proof.
  rewrite chat_unfold. intros H Hreq.
  destruct (embed_one_cases E q tr) as (_ & _ & _ & Hres).
  destruct (embed_one E q 0 tr) as [[qvec|e1] tr1]; cbn [fst] in Hres.
  - destruct (collection_search E tr1 qvec (TOP_K E)) as [hits|e2] eqn:Hs.
    + destruct (chat_generate_cases E
                  (build_prompt (fst (context_of hits)) q)
                  (snd (context_of hits)) (tr1 ++ [EvSearch qvec (TOP_K E)]))
        as (_ & _ & _ & Hgen).
      rewrite H in Hgen. cbn [fst] in Hgen. congruence.
    + injection H as <- _. eauto.
  - injection H as <- _.
    rewrite (embed_failure_not_request E q e1 Hres) in Hreq. discriminate.
Qed.

Lemma chat_request_exceptions_witness :
  exists tr1 qvec,
    collection_search unreachable_store tr1 qvec (TOP_K unreachable_store) =
    Raise refused.
Proof.
  apply (chat_request_exceptions unreachable_store question [] refused
           [EvEmbeddings question; EvSearch (vec question) 4]);
    reflexivity.
Defined.

(** X27: the answer is [message.content] when the reply has a non-empty
    one, whatever else it holds; when [message.content] is missing or
    empty the answer is [response], if that is not empty. *)
Theorem chat_answer_fallback E q tr qvec tr1 hits status reason data :
  retrieved E q tr qvec tr1 hits ->
  chat_api E (tr1 ++ [EvSearch qvec (TOP_K E)])
    (build_prompt (fst (context_of hits)) q) = Reply status reason (Ok data) ->
  raise_for_status status reason = Ok tt ->
  (forall c,
     message_content data = Some c -> c <> [] ->
     chat E q tr =
       (Ok (c, snd (context_of hits)),
        tr1 ++ [EvSearch qvec (TOP_K E);
                EvChat (build_prompt (fst (context_of hits)) q)])) /\
  (forall r,
     message_content data = None \/ message_content data = Some [] ->
     response data = Some r -> r <> [] ->
     chat E q tr =
       (Ok (r, snd (context_of hits)),
        tr1 ++ [EvSearch qvec (TOP_K E);
                EvChat (build_prompt (fst (context_of hits)) q)])).
Proof.
  intros [He Hs] Hreply Hstatus.
  assert (H : forall a,
             extract_answer data = a -> a <> [] ->
             chat E q tr =
               (Ok (a, snd (context_of hits)),
                tr1 ++ [EvSearch qvec (TOP_K E);
                        EvChat (build_prompt (fst (context_of hits)) q)])).
  { intros a Ha Hne. rewrite chat_unfold, He, Hs, chat_generate_unfold.
    unfold chat_try. rewrite Hreply, Hstatus. cbn [rbind]. rewrite Ha.
    destruct a; [congruence|]. cbn [truthy negb].
    rewrite <- app_assoc. reflexivity. }
  split.
  - intros c Hc Hne. apply H; [|assumption].
    unfold extract_answer. rewrite Hc. destruct c; [congruence | reflexivity].
  - intros r Hm Hr Hne. apply H; [|assumption].
    unfold extract_answer. rewrite Hr. destruct Hm as [-> | ->]; reflexivity.
Qed.

Lemma chat_answer_fallback_witness :
  chat (world (flaky_embeddings 0)
          (flaky_chat 0 {| message_content := Some [];
                           response := Some (py "Berlin") |}) capitals)
    question [] =
  (Ok (py "Berlin", 2),
   [EvEmbeddings question; EvSearch (vec question) 4;
    EvChat (build_prompt (fst (context_of capitals)) question)]).
Proof.
  destruct (chat_answer_fallback
              (world (flaky_embeddings 0)
                 (flaky_chat 0 {| message_content := Some [];
                                  response := Some (py "Berlin") |}) capitals)
              question [] (vec question) [EvEmbeddings question] capitals
              200 (py "OK")
              {| message_content := Some []; response := Some (py "Berlin") |})
    as [_ H]; [split; reflexivity | reflexivity | reflexivity |].
  apply (H (py "Berlin")); [right; reflexivity | reflexivity | discriminate].
Defined.
